(** * find-my-ping: keybind codec, keystroke simulator and device store

    A shallow embedding of [src/extensions/find-my-ping/src/devices.tsx].

    Strings are Rocq [string]s read as sequences of code units in the range
    0..255 (the Latin-1 part of UTF-16): [String.length] is JavaScript's
    [.length], and the case and white-space tables below are ECMAScript's,
    restricted to that range. *)

From Stdlib Require Import ZArith NArith String Ascii List Bool Lia SpecFloat.
From stdpp Require Import base option list strings pretty gmap.

Local Open Scope string_scope.

(* Let [simpl] compute a concatenation whose first string is known. *)
#[local] Arguments String.append : simpl nomatch.

(** ** JavaScript string primitives *)

Module JsString.

(** Characters that cannot be written inside a literal here. *)
Definition dquote : ascii := "034"%char.
Definition backslash : ascii := "092"%char.
Definition newline : ascii := "010"%char.

Definition str (c : ascii) : string := String c EmptyString.

Definition code (c : ascii) : N := N_of_ascii c.

(** [String.prototype.toLowerCase] on one code unit below 256: A-Z and the
    Latin-1 capitals U+00C0..U+00DE (without the multiplication sign
    U+00D7) move up by 32; everything else is unchanged. *)
Definition lower_char (c : ascii) : ascii :=
  let n := code c in
  if ((65 <=? n) && (n <=? 90) || (192 <=? n) && (n <=? 222) && negb (n =? 215))%N
  then ascii_of_N (n + 32)
  else c.

Fixpoint toLowerCase (s : string) : string :=
  match s with
  | EmptyString => EmptyString
  | String c r => String (lower_char c) (toLowerCase r)
  end.

(** [s.startsWith(p)] *)
Fixpoint startsWith (s p : string) : bool :=
  match p, s with
  | EmptyString, _ => true
  | String a p', String b s' => if ascii_dec a b then startsWith s' p' else false
  | String _ _, EmptyString => false
  end.

(** [s.split(sep)] for a one-character separator: never the empty list. *)
Fixpoint split (sep : ascii) (s : string) : list string :=
  match s with
  | EmptyString => [EmptyString]
  | String c r =>
      if ascii_dec c sep then EmptyString :: split sep r
      else match split sep r with
           | h :: t => String c h :: t
           | [] => [str c]
           end
  end.

(** [parts.join(sep)] *)
Fixpoint join (sep : string) (parts : list string) : string :=
  match parts with
  | [] => EmptyString
  | [p] => p
  | p :: rest => p ++ sep ++ join sep rest
  end.

(** [arr.includes(x)] on an array of strings. *)
Definition includes (arr : list string) (x : string) : bool :=
  bool_decide (x ∈ arr).

(** ECMAScript WhiteSpace and LineTerminator code units below 256:
    TAB, LF, VT, FF, CR, SP and NBSP. *)
Definition is_space (c : ascii) : bool :=
  let n := code c in
  ((9 <=? n) && (n <=? 13) || (n =? 32) || (n =? 160))%N.

Fixpoint trimStart (s : string) : string :=
  match s with
  | EmptyString => EmptyString
  | String c r => if is_space c then trimStart r else s
  end.

Fixpoint trimEnd (s : string) : string :=
  match s with
  | EmptyString => EmptyString
  | String c r =>
      match trimEnd r with
      | EmptyString => if is_space c then EmptyString else str c
      | r' => String c r'
      end
  end.

Definition trim (s : string) : string := trimEnd (trimStart s).

(** A string used as a condition: only the empty string is falsy. *)
Definition truthy (s : string) : bool :=
  match s with EmptyString => false | _ => true end.

(** The replacement text of [String.prototype.replace] (GetSubstitution)
    for a pattern without capture groups: [$$] is a dollar sign, [$&] the
    match, [$`] the text before it, [$'] the text after it; every other
    character, a lone [$] included, stands for itself. *)
Fixpoint getSubstitution (matched before after template : string) : string :=
  match template with
  | EmptyString => EmptyString
  | String "$" (String "$" r) =>
      String "$" (getSubstitution matched before after r)
  | String "$" (String "&" r) =>
      matched ++ getSubstitution matched before after r
  | String "$" (String "`" r) =>
      before ++ getSubstitution matched before after r
  | String "$" (String "'" r) =>
      after ++ getSubstitution matched before after r
  | String c r => String c (getSubstitution matched before after r)
  end.

(** [s.replace(/[...]/g, template)] for a pattern that is one character
    class: every character of the class is a match of length one. *)
Fixpoint replaceClass (cls : ascii -> bool) (template : string)
         (before s : string) : string :=
  match s with
  | EmptyString => EmptyString
  | String c r =>
      if cls c
      then getSubstitution (str c) before r template
           ++ replaceClass cls template (before ++ str c) r
      else String c (replaceClass cls template (before ++ str c) r)
  end.

(** [/[...]/.test(s)] for a pattern that is one character class. *)
Fixpoint testClass (cls : ascii -> bool) (s : string) : bool :=
  match s with
  | EmptyString => false
  | String c r => cls c || testClass cls r
  end.

End JsString.

(** ** Property lookup on an object literal *)

Module JsObject.

(** What [obj[k]] evaluates to for an object literal [obj]: one of its own
    properties, a member inherited from [Object.prototype] (known here by
    the text it has inside a template literal), or [undefined]. *)
Inductive property (V : Type) : Type :=
| Own (v : V)
| Inherited (text : string)
| Undefined.
Arguments Own {V} v.
Arguments Inherited {V} text.
Arguments Undefined {V}.

Definition native (name : string) : string :=
  "function " ++ name ++ "() { [native code] }".

(** The members every object literal inherits, with their text under the
    V8 engine. [__proto__] reads as [Object.prototype] itself. *)
Definition object_prototype : list (string * string) :=
  [ ("constructor", native "Object");
    ("__defineGetter__", native "__defineGetter__");
    ("__defineSetter__", native "__defineSetter__");
    ("hasOwnProperty", native "hasOwnProperty");
    ("__lookupGetter__", native "__lookupGetter__");
    ("__lookupSetter__", native "__lookupSetter__");
    ("isPrototypeOf", native "isPrototypeOf");
    ("propertyIsEnumerable", native "propertyIsEnumerable");
    ("toString", native "toString");
    ("valueOf", native "valueOf");
    ("__proto__", "[object Object]");
    ("toLocaleString", native "toLocaleString") ].

Fixpoint assoc {V : Type} (k : string) (l : list (string * V)) : option V :=
  match l with
  | [] => None
  | (k', v) :: rest => if string_dec k k' then Some v else assoc k rest
  end.

Definition get {V : Type} (own : list (string * V)) (k : string) : property V :=
  match assoc k own with
  | Some v => Own v
  | None =>
      match assoc k object_prototype with
      | Some text => Inherited text
      | None => Undefined
      end
  end.

End JsObject.

(** ** JavaScript numbers: [parseFloat] and the comparisons used on its result *)

Module JsNumber.
Import JsString.

(** IEEE 754 binary64. *)
Definition number : Type := spec_float.
Definition prec : Z := 53.
Definition emax : Z := 1024.

Definition NaN : number := S754_nan.
Definition zero : number := S754_zero false.
Definition of_Z (z : Z) : number := binary_normalize prec emax z 0 false.

Definition isNaN (x : number) : bool :=
  match x with S754_nan => true | _ => false end.
Definition lt (x y : number) : bool := SFltb x y.
Definition gt (x y : number) : bool := SFltb y x.

(** The double nearest to [m * 10^e] (ties to even), for [0 <= m]. *)
Definition of_decimal (neg : bool) (m e : Z) : number :=
  match m with
  | Z0 => S754_zero neg
  | Zpos p =>
      if (0 <=? e)%Z
      then binary_round prec emax neg (p * Z.to_pos (10 ^ e)) 0
      else let '(q, e2, loc) :=
             SFdiv_core_binary prec emax (Zpos p) 0 (10 ^ (- e)) 0 in
           binary_round_aux prec emax neg q e2 loc
  | Zneg _ => S754_nan
  end.

Definition is_digit (c : ascii) : bool :=
  ((48 <=? code c) && (code c <=? 57))%N.

Definition digit_value (c : ascii) : Z := Z.of_N (code c) - 48.

(** Reads DecimalDigits off the front of [s], continuing the value [acc]:
    the value read, the number of digits, and the rest of the string. *)
Fixpoint digits (acc : Z) (count : nat) (s : string) : Z * nat * string :=
  match s with
  | String c r =>
      if is_digit c then digits (10 * acc + digit_value c) (S count) r
      else (acc, count, s)
  | EmptyString => (acc, count, s)
  end.

(** ExponentPart, when the front of [s] is one: [e] or [E], an optional
    sign, at least one digit. Otherwise nothing is read. *)
Definition exponentPart (s : string) : Z * string :=
  match s with
  | String c r =>
      if Ascii.eqb c "e" || Ascii.eqb c "E" then
        let '(neg, r1) :=
          match r with
          | String "+" r' => (false, r')
          | String "-" r' => (true, r')
          | _ => (false, r)
          end in
        let '(v, n, r2) := digits 0 0 r1 in
        match n with
        | O => (0%Z, s)
        | S _ => ((if neg then - v else v)%Z, r2)
        end
      else (0%Z, s)
  | EmptyString => (0%Z, s)
  end.

(** The longest prefix of [s] that is a StrUnsignedDecimalLiteral, as a
    number of sign [neg]; [NaN] when there is none. *)
Definition unsignedDecimal (neg : bool) (s : string) : number :=
  if startsWith s "Infinity" then S754_infinity neg
  else
    let '(ip, ni, r1) := digits 0 0 s in
    let '(m, nf, r2) :=
      match r1 with
      | String c r => if Ascii.eqb c "." then digits ip 0 r else (ip, O, r1)
      | EmptyString => (ip, O, r1)
      end in
    match ni, nf with
    | O, O => NaN
    | _, _ =>
        let '(ex, _) := exponentPart r2 in
        of_decimal neg m (ex - Z.of_nat nf)
    end.

(** [parseFloat(s)] *)
Definition parseFloat (s : string) : number :=
  match trimStart s with
  | String c r =>
      if Ascii.eqb c "+" then unsignedDecimal false r
      else if Ascii.eqb c "-" then unsignedDecimal true r
      else unsignedDecimal false (String c r)
  | EmptyString => unsignedDecimal false EmptyString
  end.

(** *** [Number::toString] in radix 10 *)

(** A positive double [m * 2^e] as a fraction. *)
Definition fraction (m : positive) (e : Z) : Z * Z :=
  if (0 <=? e)%Z then (Zpos m * 2 ^ e, 1)%Z else (Zpos m, 2 ^ (- e))%Z.

(** [x * 10^t] for a fraction [x]. *)
Definition scale10 (x : Z * Z) (t : Z) : Z * Z :=
  let '(num, den) := x in
  if (0 <=? t)%Z then (num * 10 ^ t, den)%Z else (num, den * 10 ^ (- t))%Z.

Definition decimal_length (z : Z) : Z := Z.of_nat (String.length (pretty z)).

(** The integer [n] with [10^(n-1) <= x < 10^n], for a fraction [0 < x]. *)
Definition magnitude (x : Z * Z) : Z :=
  let '(num, den) := x in
  let guess :=
    if (den <=? num)%Z then decimal_length (num / den)
    else (2 - decimal_length (den / num))%Z in
  let below n := let '(a, b) := scale10 x (- n) in (a <? b)%Z in
  if below (guess - 1)%Z then (guess - 1)%Z
  else if below guess then guess
  else (guess + 1)%Z.

(** The [k]-digit decimals next to [x] that read back as [x], nearest
    first: each is a pair [(s, n)] standing for [s * 10^(n-k)]. *)
Definition candidates (x : number) (q : Z * Z) (n : Z) (k : Z) : list (Z * Z) :=
  let '(a, b) := scale10 q (k - n) in
  let lo := (a / b)%Z in
  let r := (a mod b)%Z in
  let hi := (lo + 1)%Z in
  let low := (lo, n) in
  let high := if (hi =? 10 ^ k)%Z then ((10 ^ (k - 1))%Z, (n + 1)%Z) else (hi, n) in
  let reads '(s, n') := SFeqb (of_decimal false s (n' - k)) x in
  let ordered :=
    match (2 * r ?= b)%Z with
    | Lt => [low; high]
    | Gt => [high; low]
    | Eq => if Z.even lo then [low; high] else [high; low]
    end in
  List.filter reads ordered.

(** The shortest digit string [s] (of [k] digits) and exponent [n] with
    [s * 10^(n-k)] reading back as [x]; [k] runs from [k] upwards, and
    seventeen digits are enough for any double. *)
Fixpoint shortest (fuel : nat) (x : number) (q : Z * Z) (n k : Z) : option (Z * Z * Z) :=
  match fuel with
  | O => None
  | S fuel' =>
      match candidates x q n k with
      | (s, n') :: _ => Some (s, n', k)
      | [] => shortest fuel' x q n (k + 1)%Z
      end
  end.

Definition zeros (n : Z) : string :=
  string_of_list_ascii (List.repeat "0"%char (Z.to_nat n)).

Definition exponent_text (e : Z) : string :=
  (if (0 <=? e)%Z then "e+" else "e-") ++ pretty (Z.abs e).

Definition layout (s n k : Z) : string :=
  let ds := pretty s in
  if ((k <=? n) && (n <=? 21))%Z then ds ++ zeros (n - k)
  else if ((0 <? n) && (n <=? 21))%Z
  then substring 0 (Z.to_nat n) ds ++ "." ++ substring (Z.to_nat n) (Z.to_nat (k - n)) ds
  else if ((-6 <? n) && (n <=? 0))%Z then "0." ++ zeros (- n) ++ ds
  else if (k =? 1)%Z then ds ++ exponent_text (n - 1)
  else substring 0 1 ds ++ "." ++ substring 1 (Z.to_nat (k - 1)) ds
       ++ exponent_text (n - 1).

(** [x] is a double as [of_decimal] and [of_Z] build it. *)
Definition toString (x : number) : string :=
  match x with
  | S754_nan => "NaN"
  | S754_zero _ => "0"
  | S754_infinity neg => if neg then "-Infinity" else "Infinity"
  | S754_finite neg m e =>
      let q := fraction m e in
      match shortest 17 (S754_finite false m e) q (magnitude q) 1 with
      | Some (s, n, k) => (if neg then "-" else "") ++ layout s n k
      | None => "NaN"
      end
  end.

(** A number used as a condition: zero and [NaN] are falsy. *)
Definition number_truthy (x : number) : bool :=
  match x with
  | S754_nan | S754_zero _ => false
  | _ => true
  end.

End JsNumber.

(** ** KeybindCodec: parsing, validation and escaping *)

Module KeybindCodec.
Import JsString JsObject JsNumber.

Record ParsedKeybind : Type := { key : string; modifiers : list string }.

Definition modifierMap : list (string * string) :=
  [ ("cmd", "command"); ("ctrl", "control"); ("opt", "option");
    ("shift", "shift") ].

(** [modifierMap[m] || m], as the template literal prints it. *)
Definition modifierName (m : string) : string :=
  match get modifierMap m with
  | Own v => if truthy v then v else m
  | Inherited text => text
  | Undefined => m
  end.

Definition parseHotkey (hotkey : string) : ParsedKeybind :=
  let parts := split "+" hotkey in
  let key := List.last parts EmptyString in
  let modifiers := map (fun m => modifierName m ++ " down") (removelast parts) in
  {| key := key; modifiers := modifiers |}.

Definition is_escaped (c : ascii) : bool :=
  Ascii.eqb c backslash || Ascii.eqb c dquote.

(** [input.replace] with the global pattern whose class holds the
    backslash and the double quote; the replacement template is a
    backslash followed by [$&]. *)
Definition sanitizeForAppleScript (input : string) : string :=
  replaceClass is_escaped (String backslash "$&") EmptyString input.

Definition validateDelay (value : string) : option string :=
  let num := parseFloat value in
  if isNaN num then Some "Delay must be a number"
  else if lt num zero then Some "Delay cannot be negative"
  else if gt num (of_Z 10) then Some "Delay cannot exceed 10 seconds"
  else None.

Definition validModifiers : list string := ["cmd"; "ctrl"; "opt"; "shift"].

Definition supportedKeys : list string :=
  ["f13"; "f14"; "f15"; "f16"; "f17"; "f18"; "f19"; "f20"].

Definition validateKeybind (value : string) : option string :=
  if negb (truthy value) then Some "Keybind cannot be empty"
  else
    let parts := split "+" value in
    if (length parts <? 2)%nat
    then Some "Keybind must have modifiers (e.g., cmd+f13)"
    else
      let key := toLowerCase (List.last parts EmptyString) in
      let modifiers := removelast parts in
      match find (fun m => negb (includes validModifiers (toLowerCase m)))
                 modifiers with
      | Some m => Some ("Invalid modifier: " ++ m)
      | None =>
          if negb (includes supportedKeys key)
             && negb (String.length key =? 1)%nat
          then Some "Key must be f13-f20 or a single character"
          else None
      end.

Definition is_forbidden (c : ascii) : bool :=
  Ascii.eqb c dquote || Ascii.eqb c ";" || Ascii.eqb c backslash.

Definition validateDeviceName (name : string) : option string :=
  if negb (truthy (trim name)) then Some "Name required"
  else if (50 <? String.length name)%nat then Some "Name too long"
  else if testClass is_forbidden name then Some "Invalid characters"
  else None.

End KeybindCodec.

(** ** The host: local storage, notifications and the automation bridge *)

Module Host.

Inductive toastStyle : Type := Animated | Success | Failure.

(** A thrown value: an [Error] with its message, or anything else. *)
Inductive thrown : Type :=
| ErrorObject (message : string)
| OtherValue.

(** What an action does to the outside, in the order it does it. *)
Inductive event : Type :=
| CloseMainWindow
| GetItem (k : string)
| SetItem (k v : string)
| ShowToast (style : toastStyle) (title : string) (message : option string)
| SetToastTitle (title : string)
| SetTimeout (ms : N)
| HideToast
| RunAppleScript (script : string).

Record world : Type := { storage : gmap string string; events : list event }.

Inductive outcome (A : Type) : Type :=
| Returned (a : A)
| Threw (e : thrown).
Arguments Returned {A} a.
Arguments Threw {A} e.

(** An async function body: it runs to completion on a world, and either
    returns or throws. *)
Definition task (A : Type) : Type := world -> outcome A * world.

Definition ret {A : Type} (a : A) : task A := fun w => (Returned a, w).

Definition bind {A B : Type} (m : task A) (k : A -> task B) : task B :=
  fun w =>
    match m w with
    | (Returned a, w') => k a w'
    | (Threw e, w') => (Threw e, w')
    end.

Definition throw {A : Type} (e : thrown) : task A := fun w => (Threw e, w).

Definition tryCatch {A : Type} (body : task A) (handler : thrown -> task A) : task A :=
  fun w =>
    match body w with
    | (Returned a, w') => (Returned a, w')
    | (Threw e, w') => handler e w'
    end.

Definition emit (e : event) : task unit :=
  fun w => (Returned tt, {| storage := storage w; events := events w ++ [e] |}).

(** Host calls. Those of the host API do not throw here; the automation
    bridge is the one call that can. *)
Definition getItem (k : string) : task (option string) :=
  fun w => (Returned (storage w !! k),
            {| storage := storage w; events := events w ++ [GetItem k] |}).

Definition setItem (k v : string) : task unit :=
  fun w => (Returned tt,
            {| storage := <[k := v]> (storage w);
               events := events w ++ [SetItem k v] |}).

Definition showToast (style : toastStyle) (title : string)
           (message : option string) : task unit :=
  emit (ShowToast style title message).

Definition closeMainWindow : task unit := emit CloseMainWindow.

Definition runAppleScript (bridge : string -> option thrown) (script : string) : task unit :=
  bind (emit (RunAppleScript script))
       (fun _ => match bridge script with
                 | None => ret tt
                 | Some e => throw e
                 end).

(** The world [w] after the events [evs]. *)
Definition after (w : world) (evs : list event) : world :=
  {| storage := storage w; events := events w ++ evs |}.

(** The events a task adds when it runs on [w]. *)
Definition trace {A : Type} (t : task A) (w : world) : list event :=
  drop (length (events w)) (events (snd (t w))).

(** A world with nothing stored and nothing done yet. *)
Definition initial : world := {| storage := ∅; events := [] |}.

(** The scripts an action sent to the bridge. *)
Definition scripts (evs : list event) : list string :=
  omap (fun e => match e with RunAppleScript s => Some s | _ => None end) evs.

(** [o || d] for a stored string that may be missing. *)
Definition orDefault (o : option string) (d : string) : string :=
  match o with
  | Some s => if JsString.truthy s then s else d
  | None => d
  end.

End Host.

(** [x ← m; k] and [m ;; k] sequence tasks, as [await] does. *)
Global Instance task_ret : MRet Host.task := @Host.ret.
Global Instance task_bind : MBind Host.task := fun A B k m => Host.bind m k.

(** ** KeystrokeSimulator *)

Module KeystrokeSimulator.
Import JsString JsObject JsNumber KeybindCodec Host.

(** The table both [simulateKeybind] and [pingDevice] declare. *)
Definition keycodeMap : list (string * number) :=
  [ ("f13", of_Z 105); ("f14", of_Z 107); ("f15", of_Z 113);
    ("f16", of_Z 106); ("f17", of_Z 64); ("f18", of_Z 79);
    ("f19", of_Z 80); ("f20", of_Z 90) ].

(** [keycodeMap[key.toLowerCase()]] *)
Definition keycode (key : string) : property number :=
  get keycodeMap (toLowerCase key).

(** [keycode] used as a condition. *)
Definition keycode_truthy (kc : property number) : bool :=
  match kc with
  | Own n => number_truthy n
  | Inherited _ => true
  | Undefined => false
  end.

(** [keycode] printed inside a template literal. *)
Definition keycode_text (kc : property number) : string :=
  match kc with
  | Own n => toString n
  | Inherited text => text
  | Undefined => "undefined"
  end.

(** [!keycode && key.toLowerCase().startsWith("f")] *)
Definition unsupported (key : string) : bool :=
  negb (keycode_truthy (keycode key)) && startsWith (toLowerCase key) "f".

Definition modifierString (modifiers : list string) : string :=
  match modifiers with
  | [] => EmptyString
  | _ => " using {" ++ join ", " modifiers ++ "}"
  end.

Definition keyCommand (key : string) (modifiers : list string) : string :=
  if keycode_truthy (keycode key)
  then "key code " ++ keycode_text (keycode key) ++ modifierString modifiers
  else "keystroke " ++ str dquote ++ key ++ str dquote ++ modifierString modifiers.

Definition nl : string := str newline.

(** The template literal [simulateKeybind] sends. *)
Definition simulateScript (keyCommand : string) : string :=
  nl ++ "  tell application " ++ str dquote ++ "System Events" ++ str dquote ++ nl
     ++ "    " ++ keyCommand ++ nl
     ++ "  end tell" ++ nl.

(** The template literal [pingDevice] sends. *)
Definition pingScript (keyCommand : string) (delay : number) (deviceName : string) : string :=
  nl ++ "    tell application " ++ str dquote ++ "System Events" ++ str dquote ++ nl
     ++ "      " ++ keyCommand ++ nl
     ++ "    end tell" ++ nl
     ++ "    delay " ++ toString delay ++ nl
     ++ "    tell application " ++ str dquote ++ "System Events" ++ str dquote ++ nl
     ++ "      keystroke " ++ str dquote ++ "ping my "
     ++ sanitizeForAppleScript deviceName ++ str dquote ++ nl
     ++ "      delay 0.3" ++ nl
     ++ "      key code 36" ++ nl
     ++ "    end tell" ++ nl
     ++ "  ".


(** The loop [for (let i = 9; i >= 0; i--)], entered with [i + 1 = n]. *)
Fixpoint countdown (n : nat) : task unit :=
  match n with
  | O => ret tt
  | S i =>
      emit (SetToastTitle ("Simulating in " ++ toString (of_Z (Z.of_nat i + 1))
                           ++ " seconds...")) ;;
      emit (SetTimeout 1000) ;;
      countdown i
  end.

(** The message of the notification for a caught [error]:
    [error instanceof Error ? error.message : ...]. *)
Definition failureMessage (error : thrown) : string :=
  match error with
  | ErrorObject message => message
  | OtherValue => "Unknown error occurred"
  end.

(** The settings [pingDevice] reads from a world, defaults applied. *)
Definition storedKeybind (w : world) : string :=
  orDefault (storage w !! "siriKeybind") "cmd+f13".
Definition storedDelay (w : world) : number :=
  parseFloat (orDefault (storage w !! "siriDelay") "1").

Section Bridge.
(** What the automation bridge answers to a script: nothing, or a
    thrown value. *)
Variable bridge : string -> option thrown.

Definition simulateKeybind (keybindString : string) : task unit :=
  closeMainWindow ;;
  let parsed := parseHotkey keybindString in
  if unsupported (key parsed)
  then throw (ErrorObject ("Unsupported function key: " ++ key parsed
                           ++ ". Only f13-f20 are supported."))
  else
    let keyCommand := keyCommand (key parsed) (modifiers parsed) in
    showToast Animated "Simulating in 10 seconds..." None ;;
    countdown 10 ;;
    emit HideToast ;;
    runAppleScript bridge (simulateScript keyCommand) ;;
    showToast Success "Keybind simulated" None.

(** [handleSimulate] of the settings form: the fields are stored as
    typed, then simulated. *)
Definition handleSimulate (keybind delay : string) : task unit :=
  setItem "siriKeybind" keybind ;;
  setItem "siriDelay" delay ;;
  simulateKeybind keybind.

Definition pingDevice (deviceName : string) : task unit :=
  tryCatch
    (savedKeybind ← getItem "siriKeybind";
     savedDelay ← getItem "siriDelay";
     let keybind := orDefault savedKeybind "cmd+f13" in
     let delay := parseFloat (orDefault savedDelay "1") in
     let parsed := parseHotkey keybind in
     if unsupported (key parsed)
     then showToast Failure "Unsupported function key"
            (Some (key parsed ++ " is not supported. Only f13-f20 are supported."))
     else
       let keyCommand := keyCommand (key parsed) (modifiers parsed) in
       showToast Animated "Pinging device..." (Some deviceName) ;;
       runAppleScript bridge (pingScript keyCommand delay deviceName) ;;
       showToast Success "Ping sent" (Some deviceName))
    (fun error =>
       showToast Failure "Failed to ping device" (Some (failureMessage error))).

End Bridge.

(** [handleSubmit] of the settings form: both fields are validated before
    anything is stored. *)
Definition handleSubmit (keybind delay : string) : task unit :=
  let keybindError := validateKeybind keybind in
  let delayError := validateDelay delay in
  match keybindError, delayError with
  | None, None =>
      setItem "siriKeybind" keybind ;;
      setItem "siriDelay" delay ;;
      showToast Success "Settings saved" None
  | Some message, _ | None, Some message =>
      showToast Failure "Invalid input" (Some message)
  end.

End KeystrokeSimulator.

(** ** DeviceStore *)

Module DeviceStore.

Record Device : Type := { id : string; name : string; icon : string }.

(** [addDevice], with the clock reading [Date.now()] it takes. *)
Definition addDevice (now : Z) (name icon : string) (devices : list Device) : list Device :=
  let newDevice := {| id := pretty now; name := name; icon := icon |} in
  devices ++ [newDevice].

Definition removeDevice (id' : string) (devices : list Device) : list Device :=
  filter (fun d => id d <> id') devices.

(** A user action on the list. *)
Inductive action : Type :=
| Add (now : Z) (name icon : string)
| Remove (id' : string).

Definition step (devices : list Device) (a : action) : list Device :=
  match a with
  | Add now name icon => addDevice now name icon devices
  | Remove id' => removeDevice id' devices
  end.

(** The list after a sequence of actions, from the empty list. *)
Definition run (actions : list action) : list Device :=
  fold_left step actions [].

(** The devices ever added, in the order of their insertion. *)
Definition added (actions : list action) : list Device :=
  omap (fun a => match a with
                 | Add now name icon =>
                     Some {| id := pretty now; name := name; icon := icon |}
                 | Remove _ => None
                 end) actions.

(** The clock readings of the additions. *)
Definition clock (actions : list action) : list Z :=
  omap (fun a => match a with Add now _ _ => Some now | Remove _ => None end) actions.

End DeviceStore.

(** ** AddDeviceForm *)

Module AddDeviceForm.
Import KeybindCodec DeviceStore.

(** What a submission of the form ends in: the failure notification
    Invalid device name with the validator's message, or the call of
    [onSubmit] (the [addDevice] of the command) followed by [pop]. *)
Inductive submission : Type :=
| Refused (message : string)
| Submitted (devices : list Device).

(** The handler of [Action.SubmitForm], on the device list of the command
    and with the clock reading [addDevice] takes. *)
Definition onSubmit (now : Z) (name icon : string) (devices : list Device) : submission :=
  match validateDeviceName name with
  | Some error => Refused error
  | None => Submitted (addDevice now name icon devices)
  end.

(** The device list after a submission. *)
Definition devicesAfter (devices : list Device) (r : submission) : list Device :=
  match r with
  | Refused _ => devices
  | Submitted devices' => devices'
  end.

(** What the user does on the list screen. *)
Inductive action : Type :=
| Submit (now : Z) (name icon : string)
| Trash (id' : string).

Definition step (devices : list Device) (a : action) : list Device :=
  match a with
  | Submit now name icon => devicesAfter devices (onSubmit now name icon devices)
  | Trash id' => removeDevice id' devices
  end.

(** The list after a sequence of user actions, from the empty list. *)
Definition run (actions : list action) : list Device := fold_left step actions [].

End AddDeviceForm.

(** ** The command and its settings form *)

Module Onboarding.
Import JsString KeybindCodec Host KeystrokeSimulator.

(** What the command renders for its [hasOnboarded] state, where [None]
    is the [null] it starts with. *)
Inductive view : Type := LoadingView | SettingsView | DeviceListView.

Definition render (hasOnboarded : option bool) : view :=
  match hasOnboarded with
  | None => LoadingView
  | Some false => SettingsView
  | Some true => DeviceListView
  end.

(** What [JSON.parse] makes of a text: it throws a syntax error, or gives
    a value, which is a list of devices or something else. *)
Inductive parsed : Type :=
| SyntaxError (message : string)
| OtherJson
| Devices (devices : list DeviceStore.Device).

Section Json.
(** [JSON.parse], as far as the command uses it. *)
Variable parse : string -> parsed.

(** [devicesData ? JSON.parse(devicesData) : []] *)
Definition parsedDevices (devicesData : option string) : parsed :=
  match devicesData with
  | Some text => if truthy text then parse text else Devices []
  | None => Devices []
  end.

(** The effect of the command on mount: the two states it sets, the
    devices ([None] for a value that is no list of devices) and the flag
    [onboardedData === "true"]. When [JSON.parse] throws, neither is
    set. *)
Definition loadOnboarded : task (option (list DeviceStore.Device) * bool) :=
  devicesData ← getItem "devices";
  onboardedData ← getItem "hasOnboarded";
  match parsedDevices devicesData with
  | SyntaxError message => throw (ErrorObject message)
  | OtherJson => ret (None, bool_decide (onboardedData = Some "true"))
  | Devices devices => ret (Some devices, bool_decide (onboardedData = Some "true"))
  end.

End Json.

(** [completeOnboarding]: the flag is stored, and the state set to true. *)
Definition completeOnboarding : task bool :=
  setItem "hasOnboarded" "true" ;;
  ret true.

(** The effect of the settings form on mount: the values of its two
    fields. *)
Definition loadSettings : task (string * string) :=
  savedKeybind ← getItem "siriKeybind";
  savedDelay ← getItem "siriDelay";
  ret (orDefault savedKeybind "cmd+f13", orDefault savedDelay "1").

(** [handleSubmit] with the [onComplete] the form was given. *)
Definition handleSubmit {A : Type} (onComplete : task A) (keybind delay : string) : task unit :=
  let keybindError := validateKeybind keybind in
  let delayError := validateDelay delay in
  match keybindError, delayError with
  | None, None =>
      setItem "siriKeybind" keybind ;;
      setItem "siriDelay" delay ;;
      showToast Success "Settings saved" None ;;
      onComplete ;;
      ret tt
  | Some message, _ | None, Some message =>
      showToast Failure "Invalid input" (Some message)
  end.

End Onboarding.

(** * Vocabulary of the properties *)

Module Vocabulary.
Import JsString JsObject JsNumber KeybindCodec Host KeystrokeSimulator.

(** The characters of a string. *)
Definition chars (s : string) : list ascii := list_ascii_of_string s.

(** One character, escaped as the specification words it. *)
Definition escape (c : ascii) : list ascii :=
  if ascii_dec c backslash then [backslash; c]
  else if ascii_dec c dquote then [backslash; c]
  else [c].

(** A string of white space only; the empty string is one. *)
Definition whitespace_only (s : string) : Prop :=
  Forall (fun c => is_space c = true) (chars s).

Definition contains (c : ascii) (s : string) : Prop := In c (chars s).

(** The tokens of a keybind string: its modifier tokens and its final
    token. *)
Definition tokens (s : string) : list string := split "+" s.
Definition modifierTokens (s : string) : list string := removelast (tokens s).
Definition finalToken (s : string) : string := List.last (tokens s) EmptyString.

(** The four names a modifier list is meant to hold. *)
Definition canonicalModifiers : list string :=
  ["command down"; "control down"; "option down"; "shift down"].

(** A modifier token that [validateKeybind] refuses. *)
Definition badModifier (m : string) : bool :=
  negb (includes validModifiers (toLowerCase m)).

(** The events of [pingDevice] on a world whose stored key is refused,
    and on one whose stored key resolves. *)
Definition refusedTrace (w : world) : list event :=
  [ GetItem "siriKeybind"; GetItem "siriDelay";
    ShowToast Failure "Unsupported function key"
      (Some (key (parseHotkey (storedKeybind w))
             ++ " is not supported. Only f13-f20 are supported.")) ].

Definition sentScript (w : world) (deviceName : string) : string :=
  let parsed := parseHotkey (storedKeybind w) in
  pingScript (keyCommand (key parsed) (modifiers parsed)) (storedDelay w) deviceName.

Definition pingTrace (bridge : string -> option thrown) (w : world)
           (deviceName : string) : list event :=
  [ GetItem "siriKeybind"; GetItem "siriDelay";
    ShowToast Animated "Pinging device..." (Some deviceName);
    RunAppleScript (sentScript w deviceName);
    match bridge (sentScript w deviceName) with
    | None => ShowToast Success "Ping sent" (Some deviceName)
    | Some error => ShowToast Failure "Failed to ping device" (Some (failureMessage error))
    end ].

(** Case analysis on every comparison of a table lookup. *)
Ltac lookup_cases :=
  repeat match goal with
         | |- context [string_dec ?a ?b] =>
             destruct (string_dec a b) as [?E | ?E];
             [first [discriminate | subst] |]
         end.

Ltac elem_cases H :=
  repeat (apply elem_of_cons in H as [H | H]; [subst |]);
  try (by apply elem_of_nil in H).

(** The numeric literals [parseFloat] reads (StrDecimalLiteral). *)
Inductive DecimalDigits : string -> Prop :=
| digits_one c : is_digit c = true -> DecimalDigits (str c)
| digits_more c s : is_digit c = true -> DecimalDigits s -> DecimalDigits (String c s).

Inductive SignedInteger : string -> Prop :=
| signed_none s : DecimalDigits s -> SignedInteger s
| signed_plus s : DecimalDigits s -> SignedInteger (String "+" s)
| signed_minus s : DecimalDigits s -> SignedInteger (String "-" s).

Inductive ExponentPart : string -> Prop :=
| exponent_lower s : SignedInteger s -> ExponentPart (String "e" s)
| exponent_upper s : SignedInteger s -> ExponentPart (String "E" s).

Definition optional (P : string -> Prop) (s : string) : Prop :=
  s = EmptyString \/ P s.

Inductive StrUnsignedDecimalLiteral : string -> Prop :=
| literal_infinity : StrUnsignedDecimalLiteral "Infinity"
| literal_point i f e :
    DecimalDigits i -> optional DecimalDigits f -> optional ExponentPart e ->
    StrUnsignedDecimalLiteral (i ++ "." ++ f ++ e)
| literal_fraction f e :
    DecimalDigits f -> optional ExponentPart e ->
    StrUnsignedDecimalLiteral ("." ++ f ++ e)
| literal_integer i e :
    DecimalDigits i -> optional ExponentPart e ->
    StrUnsignedDecimalLiteral (i ++ e).

Inductive StrDecimalLiteral : string -> Prop :=
| literal_unsigned u : StrUnsignedDecimalLiteral u -> StrDecimalLiteral u
| literal_plus u : StrUnsignedDecimalLiteral u -> StrDecimalLiteral (String "+" u)
| literal_minus u : StrUnsignedDecimalLiteral u -> StrDecimalLiteral (String "-" u).

(** A string is parseable as a number when, leading white space apart, it
    starts with a numeric literal. *)
Definition parseable (s : string) : Prop :=
  exists literal rest : string,
    StrDecimalLiteral literal /\ trimStart s = literal ++ rest.

(** What a string with a numeric literal in front starts with. *)
Definition numeric_start (s : string) : Prop :=
  (exists rest, s = "Infinity" ++ rest)
  \/ (exists c r, s = String c r /\ is_digit c = true)
  \/ (exists c r, s = String "." (String c r) /\ is_digit c = true).

(** Settles a closed decidable proposition by evaluation. *)
Ltac by_evaluation P := apply (bool_decide_unpack P); vm_compute; exact I.

End Vocabulary.

(** ** Further vocabulary *)

Module Reading.
Import JsString JsNumber KeybindCodec Host KeystrokeSimulator Vocabulary.

(** The text between the quotes of a string literal in which a backslash
    makes the next character stand for itself: what the text stands for,
    or nothing when a quote would end the literal early or a backslash is
    left hanging. *)
Fixpoint readLiteral (s : string) : option string :=
  match s with
  | EmptyString => Some EmptyString
  | String c r =>
      if Ascii.eqb c backslash then
        match r with
        | String d r' => String d <$> readLiteral r'
        | EmptyString => None
        end
      else if Ascii.eqb c dquote then None
      else String c <$> readLiteral r
  end.

(** How often a character stands in a string. *)
Definition occurrences (c : ascii) (s : string) : nat := count_occ ascii_dec (chars s) c.

(** The events of the countdown loop entered with [n] iterations left. *)
Fixpoint countdownTrace (n : nat) : list event :=
  match n with
  | O => []
  | S i =>
      SetToastTitle ("Simulating in " ++ toString (of_Z (Z.of_nat i + 1)) ++ " seconds...")
      :: SetTimeout 1000 :: countdownTrace i
  end.

(** The milliseconds an action asked the timer for. *)
Definition waited (evs : list event) : N :=
  foldr (fun e total => match e with SetTimeout ms => (ms + total)%N | _ => total end) 0%N evs.

(** A setting that is missing, or stored as the empty string. *)
Definition unset (o : option string) : Prop := o = None \/ o = Some EmptyString.

(** The end of [simulateKeybind]: the success notification, unless the
    bridge threw. *)
Definition simulateEnd (answer : option thrown) : outcome unit * list event :=
  match answer with
  | None => (Returned tt, [ShowToast Success "Keybind simulated" None])
  | Some e => (Threw e, [])
  end.

(** The world [w] with [v] stored under [k]. *)
Definition withItem (k v : string) (w : world) : world :=
  {| storage := <[k := v]> (storage w); events := events w |}.

(** The world once [handleSubmit] has stored accepted settings and
    announced it. *)
Definition savedWorld (keybind delay : string) (w : world) : world :=
  after (withItem "siriDelay" delay (withItem "siriKeybind" keybind w))
        [ SetItem "siriKeybind" keybind; SetItem "siriDelay" delay;
          ShowToast Success "Settings saved" None ].

(** The message of the failure notification of [handleSubmit]:
    [keybindError || delayError]. *)
Definition firstError (keybind delay : string) : option string :=
  match validateKeybind keybind with
  | Some message => Some message
  | None => validateDelay delay
  end.

(** What can happen once the command is open: a ping, a run of the typed
    keybind, a submission of the settings screen, the completion of the
    first run. *)
Inductive use : Type :=
| Ping (bridge : string -> option thrown) (deviceName : string)
| Simulate (bridge : string -> option thrown) (keybind delay : string)
| Save (keybind delay : string)
| Complete (keybind delay : string).

(** The world after one use, and after a sequence of uses. *)
Definition perform (w : world) (u : use) : world :=
  match u with
  | Ping bridge deviceName => snd (pingDevice bridge deviceName w)
  | Simulate bridge keybind delay => snd (handleSimulate bridge keybind delay w)
  | Save keybind delay => snd (Onboarding.handleSubmit (ret true) keybind delay w)
  | Complete keybind delay =>
      snd (Onboarding.handleSubmit Onboarding.completeOnboarding keybind delay w)
  end.

Definition performAll (w : world) (uses : list use) : world := fold_left perform uses w.

(** The branch of the render gate the command takes once its effect on
    mount has run on [w]: when the effect throws, [hasOnboarded] is still
    [null]. What the list makes of a devices value that is no list of
    devices is left open. *)
Definition viewAfterLoad (parse : string -> Onboarding.parsed) (w : world) : Onboarding.view :=
  match fst (Onboarding.loadOnboarded parse w) with
  | Returned (_, b) => Onboarding.render (Some b)
  | Threw _ => Onboarding.render None
  end.

(** What the effect on mount makes of the devices stored in [w]. *)
Definition storedDevices (parse : string -> Onboarding.parsed) (w : world) : Onboarding.parsed :=
  Onboarding.parsedDevices parse (storage w !! "devices").

(** A use other than the completion of the first run. *)
Definition ordinary (u : use) : Prop :=
  match u with Complete _ _ => False | _ => True end.

(** Text after a number that cannot continue it: nothing, or text that
    starts with no digit, point or exponent letter. *)
Definition ends_number (tail : string) : Prop :=
  match tail with
  | EmptyString => True
  | String c _ =>
      is_digit c = false /\ c <> "."%char /\ c <> "e"%char /\ c <> "E"%char
  end.

(** The key codes as the script spells them. *)
Definition keyCodeTexts : list (string * string) :=
  [ ("f13", "105"); ("f14", "107"); ("f15", "113"); ("f16", "106");
    ("f17", "64"); ("f18", "79"); ("f19", "80"); ("f20", "90") ].

(** An addition that reads a clock value whose text is the id of a device
    of the list. *)
Definition collides (devices : list DeviceStore.Device) (a : DeviceStore.action) : Prop :=
  match a with
  | DeviceStore.Add now _ _ => pretty now ∈ (DeviceStore.id <$> devices)
  | DeviceStore.Remove _ => False
  end.

(** No addition of [actions], run from [devices], collides with the list
    it is made to. *)
Fixpoint freshFrom (devices : list DeviceStore.Device) (actions : list DeviceStore.action) : Prop :=
  match actions with
  | [] => True
  | a :: rest => ~ collides devices a /\ freshFrom (DeviceStore.step devices a) rest
  end.

Definition fresh (actions : list DeviceStore.action) : Prop := freshFrom [] actions.

(** The store action a form action comes to: a refused submission is
    none. *)
Definition storeAction (a : AddDeviceForm.action) : option DeviceStore.action :=
  match a with
  | AddDeviceForm.Submit now name icon =>
      match validateDeviceName name with
      | None => Some (DeviceStore.Add now name icon)
      | Some _ => None
      end
  | AddDeviceForm.Trash id' => Some (DeviceStore.Remove id')
  end.

End Reading.

(** * Properties *)

(** ** Strings *)

Module JsStringFacts.
Import JsString Vocabulary.

Lemma length_toLowerCase s : String.length (toLowerCase s) = String.length s.
Proof. induction s as [|c s IH]; simpl; [done | by rewrite IH]. Qed.

Lemma split_nonempty sep s : split sep s <> [].
Proof.
  destruct s as [|c s]; simpl; [done |].
  destruct (ascii_dec c sep); [done |].
  by destruct (split sep s).
Qed.

(** A string is falsy exactly when it is empty. *)
Lemma truthy_false s : truthy s = false <-> s = EmptyString.
Proof. by destruct s. Qed.

Lemma app_assoc (s t u : string) : (s ++ t) ++ u = s ++ t ++ u.
Proof. induction s as [|c s IH]; simpl; [done | by rewrite IH]. Qed.

(** *** Trimming *)

Lemma trimEnd_empty s : trimEnd s = EmptyString <-> Forall (fun c => is_space c = true) (chars s).
Proof.
  induction s as [|c s IH]; simpl.
  - split; [constructor | done].
  - destruct (trimEnd s) eqn:E.
    + destruct (is_space c) eqn:Hc.
      * split; [intros _; constructor; [done | by apply IH] | done].
      * split; [done | intros H; inversion H; congruence].
    + split; [done |].
      intros H; inversion H as [|? ? _ Hs]; subst.
      apply IH in Hs. discriminate.
Qed.

Lemma trimStart_spaces s :
  Forall (fun c => is_space c = true) (chars (trimStart s))
  <-> Forall (fun c => is_space c = true) (chars s).
Proof.
  induction s as [|c s IH]; simpl; [done |].
  destruct (is_space c) eqn:Hc.
  - rewrite IH. split; [by constructor | by inversion 1].
  - done.
Qed.

(** [s.trim()] is empty exactly when [s] is empty or holds white space
    only. *)
Lemma trim_empty s :
  trim s = EmptyString <-> Forall (fun c => is_space c = true) (chars s).
Proof. unfold trim. by rewrite trimEnd_empty, trimStart_spaces. Qed.

Lemma testClass_In cls s : testClass cls s = true <-> exists c, In c (chars s) /\ cls c = true.
Proof.
  induction s as [|c s IH]; simpl.
  - split; [done | by intros (? & [] & _)].
  - rewrite orb_true_iff, IH. split.
    + intros [H | (x & Hx & Hc)]; [exists c; auto | exists x; auto].
    + intros (x & [-> | Hx] & Hc); [by left | right; eauto].
Qed.

Lemma startsWith_char c k a :
  startsWith (String c k) (str a) = if ascii_dec a c then true else false.
Proof. unfold str. cbn [startsWith]. by destruct (ascii_dec a c), k. Qed.

Lemma startsWith_app s p : startsWith s p = true <-> exists rest, s = p ++ rest.
Proof.
  revert s. induction p as [|a p IH]; intros s.
  - split; [by exists s | by destruct s].
  - destruct s as [|b s]; cbn [startsWith].
    + split; [done | by intros (? & ?)].
    + destruct (ascii_dec a b) as [<- | Hne].
      * rewrite IH. split; intros (rest & H); exists rest.
        -- by rewrite H.
        -- by injection H.
      * split; [done |]. intros (rest & [= ? ?]). done.
Qed.

End JsStringFacts.

(** ** parseFloat *)

Module NumberFacts.
Import JsString JsNumber Vocabulary JsStringFacts.


Lemma shr_1_nonneg mrs : (0 <= shr_m mrs)%Z -> (0 <= shr_m (shr_1 mrs))%Z.
Proof. destruct mrs as [[|[p|p|]|p] r s]; simpl; lia. Qed.

Lemma iter_shr_1_nonneg p mrs :
  (0 <= shr_m mrs)%Z -> (0 <= shr_m (SpecFloat.iter_pos shr_1 p mrs))%Z.
Proof.
  revert mrs. induction p as [p IH | p IH |]; intros mrs H; simpl.
  - by apply IH, IH, shr_1_nonneg.
  - by apply IH, IH.
  - by apply shr_1_nonneg.
Qed.

Lemma shr_fexp_nonneg m e l :
  (0 <= m)%Z -> (0 <= shr_m (fst (shr_fexp prec emax m e l)))%Z.
Proof.
  intros H. unfold shr_fexp, shr.
  assert (0 <= shr_m (shr_record_of_loc m l))%Z as H' by (by destruct l as [|[]]).
  destruct (_ - e)%Z; simpl; [done | | done].
  by apply iter_shr_1_nonneg.
Qed.

Lemma round_nearest_even_nonneg m l :
  (0 <= m)%Z -> (0 <= round_nearest_even m l)%Z.
Proof. destruct l as [|[]]; simpl; try destruct (Z.even m); lia. Qed.

(** Rounding a magnitude gives a zero, a finite number or an infinity. *)
Lemma binary_round_aux_number sx mx ex lx :
  (0 <= mx)%Z -> isNaN (binary_round_aux prec emax sx mx ex lx) = false.
Proof.
  intros H. unfold binary_round_aux.
  pose proof (shr_fexp_nonneg mx ex lx H) as H1.
  destruct (shr_fexp prec emax mx ex lx) as [mrs' e']. simpl in H1.
  pose proof (shr_fexp_nonneg _ e' loc_Exact
                (round_nearest_even_nonneg _ (loc_of_shr_record mrs') H1)) as H2.
  destruct (shr_fexp prec emax _ e' loc_Exact) as [mrs'' e'']. simpl in H2.
  destruct (shr_m mrs''); [done | | lia].
  by destruct (e'' <=? emax - prec)%Z.
Qed.

Lemma of_decimal_number neg m e : (0 <= m)%Z -> isNaN (of_decimal neg m e) = false.
Proof.
  intros H. unfold of_decimal. destruct m as [|p|p]; [done | | lia].
  destruct (Z.leb_spec 0 e).
  - unfold binary_round. destruct (shl_align _ _ _).
    by apply binary_round_aux_number.
  - unfold SFdiv_core_binary.
    set (m' := match (_ - _ - _)%Z with Z0 => _ | Zpos _ => _ | Zneg _ => _ end).
    assert (0 <= m')%Z as Hm'.
    { unfold m'. destruct (_ - _ - _)%Z; [lia | | lia].
      apply Z.shiftl_nonneg. lia. }
    pose proof (Z_div_mod m' (10 ^ (- e))) as Hdiv.
    destruct (Z.div_eucl m' (10 ^ (- e))) as [q r].
    apply binary_round_aux_number.
    assert (0 < 10 ^ (- e))%Z as Hpos by (apply Z.pow_pos_nonneg; lia).
    destruct (Hdiv ltac:(lia)) as [Hq Hr]. nia.
Qed.

(** *** Reading digits *)

Lemma digit_value_nonneg c : is_digit c = true -> (0 <= digit_value c)%Z.
Proof.
  unfold is_digit, digit_value. rewrite andb_true_iff, !N.leb_le. lia.
Qed.

Lemma digits_not_digit acc n c r :
  is_digit c = false -> digits acc n (String c r) = (acc, n, String c r).
Proof. simpl. by intros ->. Qed.

Lemma digits_nonneg s acc n : (0 <= acc)%Z -> (0 <= (digits acc n s).1.1)%Z.
Proof.
  revert acc n. induction s as [|c s IH]; intros acc n H; simpl; [done |].
  destruct (is_digit c) eqn:Hc; [| done].
  apply IH. pose proof (digit_value_nonneg c Hc). lia.
Qed.

Lemma digits_count_le s acc n : n <= (digits acc n s).1.2.
Proof.
  revert acc n. induction s as [|c s IH]; intros acc n; simpl; [done |].
  destruct (is_digit c); [| done].
  etrans; [| apply IH]. lia.
Qed.

(** At least one digit is read exactly when the string starts with one. *)
Lemma digits_count s acc n :
  n < (digits acc n s).1.2 <-> exists c r, s = String c r /\ is_digit c = true.
Proof.
  destruct s as [|c s]; simpl.
  - split; [lia | by intros (? & ? & ? & _)].
  - destruct (is_digit c) eqn:Hc; simpl.
    + split; [by eauto |]. intros _. pose proof (digits_count_le s (10 * acc + digit_value c) (S n)). lia.
    + split; [lia |]. intros (c' & r & [= <- <-] & ?). congruence.
Qed.

(** *** Reading a literal *)

Lemma unsignedDecimal_number neg s :
  isNaN (unsignedDecimal neg s) = false <-> numeric_start s.
Proof.
  unfold unsignedDecimal, numeric_start.
  destruct (startsWith s "Infinity") eqn:Hinf.
  { apply startsWith_app in Hinf. split; [by left | done]. }
  assert (~ exists rest, s = "Infinity" ++ rest) as Hnot.
  { intros H. apply startsWith_app in H. congruence. }
  destruct s as [|c r].
  { simpl. split; [done |].
    intros [H | [(? & ? & ? & _) | (? & ? & ? & _)]]; done. }
  destruct (is_digit c) eqn:Hc.
  - (* an integer part *)
    pose proof (proj2 (digits_count (String c r) 0 0) ltac:(eauto)) as Hni.
    pose proof (digits_nonneg (String c r) 0 0 ltac:(lia)) as Hip.
    destruct (digits 0 0 (String c r)) as [[ip ni] r1]. simpl in Hni, Hip.
    assert (0 <= (match r1 with
                  | String c0 r0 => if Ascii.eqb c0 "." then digits ip O r0 else (ip, O, r1)
                  | EmptyString => (ip, O, r1)
                  end).1.1)%Z as Hm.
    { destruct r1 as [|c0 r0]; [done |].
      destruct (Ascii.eqb c0 "."); [by apply digits_nonneg | done]. }
    destruct (match r1 with
              | String c0 r0 => if Ascii.eqb c0 "." then digits ip 0 r0 else (ip, 0, r1)
              | EmptyString => (ip, 0, r1)
              end) as [[m nf] r2].
    simpl in Hm. destruct ni; [lia |].
    destruct (exponentPart r2) as [ex r3].
    split; [intros _; right; left; eauto | intros _; by apply of_decimal_number].
  - (* no integer part *)
    rewrite (digits_not_digit _ _ _ _ Hc).
    destruct (Ascii.eqb_spec c ".") as [-> | Hdot].
    + pose proof (digits_count r 0 0) as Hnf.
      pose proof (digits_nonneg r 0 0 ltac:(lia)) as Hm.
      destruct (digits 0 0 r) as [[m nf] r2]. simpl in Hnf, Hm.
      destruct nf.
      * split; [done |].
        intros [H | [(c' & r' & [= <- <-] & Hc') | (c' & r' & [= ->] & Hc')]];
          [done | congruence |].
        assert (0 < 0) by (apply Hnf; eauto). lia.
      * destruct (exponentPart r2) as [ex r3].
        split; [| intros _; by apply of_decimal_number].
        intros _. right; right.
        destruct (proj1 Hnf ltac:(lia)) as (c' & r' & -> & Hc'). eauto.
    + split; [done |].
      intros [H | [(c' & r' & [= <- <-] & Hc') | (c' & r' & [= -> ->] & Hc')]];
        [done | congruence | done].
Qed.

Lemma digits_start s : DecimalDigits s -> exists c r, s = String c r /\ is_digit c = true.
Proof. destruct 1; unfold str; eauto. Qed.

Lemma literal_numeric_start u rest :
  StrUnsignedDecimalLiteral u -> numeric_start (u ++ rest).
Proof.
  unfold numeric_start.
  destruct 1 as [| i f e Hi _ _ | f e Hf _ | i e Hi _].
  - left. eauto.
  - right; left. destruct (digits_start i Hi) as (c & r & -> & Hc). simpl. eauto.
  - right; right. destruct (digits_start f Hf) as (c & r & -> & Hc). simpl. eauto.
  - right; left. destruct (digits_start i Hi) as (c & r & -> & Hc). simpl. eauto.
Qed.

Lemma numeric_start_literal s :
  numeric_start s -> exists u rest, StrUnsignedDecimalLiteral u /\ s = u ++ rest.
Proof.
  intros [(rest & ->) | [(c & r & -> & Hc) | (c & r & -> & Hc)]].
  - exists "Infinity", rest. split; [constructor | done].
  - exists (str c ++ EmptyString), r. split; [| done].
    apply literal_integer; [by constructor | by left].
  - exists ("." ++ str c ++ EmptyString), r. split; [| done].
    apply literal_fraction; [by constructor | by left].
Qed.

(** A numeric literal does not start with a sign. *)
Lemma numeric_start_unsigned c r :
  numeric_start (String c r) -> Ascii.eqb c "+" = false /\ Ascii.eqb c "-" = false.
Proof.
  intros [(rest & [= -> _]) | [(c' & r' & [= <- <-] & Hc) | (c' & r' & [= -> _] & Hc)]];
    [done | | done].
  split; apply Ascii.eqb_neq; intros ->; discriminate.
Qed.

(** [parseFloat] gives a number exactly on the parseable strings. *)
Lemma parseFloat_number s : isNaN (parseFloat s) = false <-> parseable s.
Proof.
  unfold parseFloat, parseable. destruct (trimStart s) as [|c r].
  { rewrite unsignedDecimal_number. split.
    - intros H. apply numeric_start_literal in H as (u & rest & Hu & ->).
      exists u, rest. split; [by constructor | done].
    - intros (literal & rest & Hlit & Heq).
      destruct Hlit as [u Hu | u Hu | u Hu]; [| discriminate | discriminate].
      apply (literal_numeric_start _ rest) in Hu. by rewrite <- Heq in Hu. }
  destruct (Ascii.eqb_spec c "+") as [-> | Hplus];
    [| destruct (Ascii.eqb_spec c "-") as [-> | Hminus]];
    rewrite unsignedDecimal_number.
  - split.
    + intros H. apply numeric_start_literal in H as (u & rest & Hu & ->).
      exists (String "+" u), rest. split; [by constructor | done].
    + intros (literal & rest & Hlit & Heq).
      destruct Hlit as [u Hu | u Hu | u Hu].
      * apply (literal_numeric_start _ rest) in Hu. rewrite <- Heq in Hu.
        by apply numeric_start_unsigned in Hu as [? ?].
      * injection Heq as ->. by apply literal_numeric_start.
      * discriminate.
  - split.
    + intros H. apply numeric_start_literal in H as (u & rest & Hu & ->).
      exists (String "-" u), rest. split; [by constructor | done].
    + intros (literal & rest & Hlit & Heq).
      destruct Hlit as [u Hu | u Hu | u Hu].
      * apply (literal_numeric_start _ rest) in Hu. rewrite <- Heq in Hu.
        by apply numeric_start_unsigned in Hu as [? ?].
      * discriminate.
      * injection Heq as ->. by apply literal_numeric_start.
  - split.
    + intros H. apply numeric_start_literal in H as (u & rest & Hu & Heq).
      exists u, rest. split; [by constructor | done].
    + intros (literal & rest & Hlit & Heq).
      destruct Hlit as [u Hu | u Hu | u Hu].
      * rewrite Heq. by apply literal_numeric_start.
      * injection Heq as -> _. done.
      * injection Heq as -> _. done.
Qed.

End NumberFacts.

(** ** sanitizeForAppleScript *)

Module SanitizeFacts.
Import JsString KeybindCodec Vocabulary JsStringFacts.

Lemma is_escaped_spec c : is_escaped c = true <-> c = backslash \/ c = dquote.
Proof.
  unfold is_escaped. rewrite orb_true_iff, !Ascii.eqb_eq. tauto.
Qed.

Lemma replaceClass_escape before s :
  chars (replaceClass is_escaped (String backslash "$&") before s)
  = flat_map escape (chars s).
Proof.
  revert before. induction s as [|c s IH]; intros before; simpl; [done |].
  unfold escape at 1.
  destruct (is_escaped c) eqn:Hc.
  - apply is_escaped_spec in Hc.
    change (chars (String backslash (str c ++ EmptyString)
                   ++ replaceClass is_escaped (String backslash "$&") (before ++ str c) s)
            = ((if ascii_dec c backslash then [backslash; c]
                else if ascii_dec c dquote then [backslash; c] else [c])
               ++ flat_map escape (chars s))%list).
    simpl. rewrite IH.
    destruct (ascii_dec c backslash); [done |].
    destruct (ascii_dec c dquote); [done | tauto].
  - simpl. rewrite IH.
    destruct (ascii_dec c backslash) as [->|]; [done |].
    destruct (ascii_dec c dquote) as [->|]; done.
Qed.

(** C10. For every string [s], [sanitizeForAppleScript s] is [s] with each
    backslash and each double quote prefixed by one backslash, and every
    other character (the single quote among them) left as it is. *)
Theorem sanitizeForAppleScript_escapes (s : string) :
  chars (sanitizeForAppleScript s) = flat_map escape (chars s)
  /\ escape backslash = [backslash; backslash]
  /\ escape dquote = [backslash; dquote]
  /\ escape "'" = ["'"%char]
  /\ forall c, c <> backslash -> c <> dquote -> escape c = [c].
Proof.
  split; [apply replaceClass_escape |].
  repeat split; try reflexivity.
  intros c H1 H2. unfold escape.
  destruct (ascii_dec c backslash); [done |].
  by destruct (ascii_dec c dquote).
Qed.

Lemma sanitizeForAppleScript_escapes_witness :
  "a"%char <> backslash /\ "a"%char <> dquote /\ escape "a" = ["a"%char].
Proof.
  assert ("a"%char <> backslash) as H1 by discriminate.
  assert ("a"%char <> dquote) as H2 by discriminate.
  exact (conj H1 (conj H2
    (proj2 (proj2 (proj2 (proj2 (sanitizeForAppleScript_escapes EmptyString))))
       "a"%char H1 H2))).
Defined.

End SanitizeFacts.

(** ** validateDeviceName and validateDelay *)

Module ValidationFacts.
Import JsString JsNumber KeybindCodec Vocabulary JsStringFacts NumberFacts.

Lemma is_forbidden_spec c :
  is_forbidden c = true <-> c = dquote \/ c = ";"%char \/ c = backslash.
Proof.
  unfold is_forbidden. rewrite !orb_true_iff, !Ascii.eqb_eq. tauto.
Qed.

Lemma testClass_forbidden s :
  testClass is_forbidden s = true
  <-> contains dquote s \/ contains ";" s \/ contains backslash s.
Proof.
  rewrite testClass_In. unfold contains. split.
  - intros (c & Hin & Hc). apply is_forbidden_spec in Hc.
    destruct Hc as [-> | [-> | ->]]; auto.
  - intros [H | [H | H]]; eexists; (split; [exact H | reflexivity]).
Qed.

Lemma validateDeviceName_error (name : string) :
  is_Some (validateDeviceName name)
  <-> whitespace_only name \/ 50 < String.length name
      \/ contains dquote name \/ contains ";" name \/ contains backslash name.
Proof.
  unfold validateDeviceName.
  rewrite <- testClass_forbidden. unfold whitespace_only.
  rewrite <- trim_empty, <- truthy_false.
  destruct (truthy (trim name)); simpl.
  - destruct (Nat.ltb_spec 50 (String.length name)).
    + split; [auto | by eexists].
    + destruct (testClass is_forbidden name).
      * split; [auto | by eexists].
      * split; [by intros [? ?] | intros [? | [? | ?]]; first [done | lia]].
  - split; [auto | by eexists].
Qed.

(** C9. [validateDeviceName name] is an error exactly when [name] is empty
    or white space only, or longer than 50 characters, or holds a double
    quote, a semicolon or a backslash. The empty string, every string of
    51 characters and a name with a double quote are errors; the name
    Sophie's iPhone is not. *)
Theorem validateDeviceName_spec :
  (forall name : string,
      is_Some (validateDeviceName name)
      <-> whitespace_only name \/ 50 < String.length name
          \/ contains dquote name \/ contains ";" name
          \/ contains backslash name)
  /\ is_Some (validateDeviceName EmptyString)
  /\ (forall name : string, String.length name = 51 -> is_Some (validateDeviceName name))
  /\ validateDeviceName "Sophie's iPhone" = None
  /\ is_Some (validateDeviceName ("Sophie" ++ str dquote ++ "s")).
Proof.
  split; [exact validateDeviceName_error |].
  split; [by eexists |].
  split; [| split; [reflexivity | by eexists]].
  intros name Hlen. apply validateDeviceName_error. right; left. lia.
Qed.

Lemma validateDeviceName_spec_witness :
  let name := "An iPhone with a name of fifty-one characters.!!!!!" in
  String.length name = 51 /\ is_Some (validateDeviceName name).
Proof.
  intros name.
  exact (conj eq_refl (proj1 (proj2 (proj2 validateDeviceName_spec)) name eq_refl)).
Defined.

Lemma parseFloat_NaN value : isNaN (parseFloat value) = true <-> ~ parseable value.
Proof.
  rewrite <- parseFloat_number. destruct (isNaN (parseFloat value)); split; done.
Qed.

(** C8. [validateDelay value] is an error exactly when [value] is not
    parseable as a number, or parses to a number below zero, or parses to a
    number above ten; the text 1 passes, and -1, 11 and abc are errors. *)
Theorem validateDelay_spec :
  (forall value : string,
      is_Some (validateDelay value)
      <-> ~ parseable value
          \/ lt (parseFloat value) zero = true
          \/ gt (parseFloat value) (of_Z 10) = true)
  /\ validateDelay "1" = None
  /\ is_Some (validateDelay "-1")
  /\ is_Some (validateDelay "11")
  /\ is_Some (validateDelay "abc").
Proof.
  split.
  - intros value. rewrite <- parseFloat_NaN. unfold validateDelay.
    destruct (isNaN (parseFloat value)); [split; [auto | by eexists] |].
    destruct (lt (parseFloat value) zero); [split; [auto | by eexists] |].
    destruct (gt (parseFloat value) (of_Z 10)); [split; [auto | by eexists] |].
    split; [by intros [? ?] | by intros [? | [? | ?]]].
  - repeat split; first [by vm_compute | by vm_compute; eexists].
Qed.

End ValidationFacts.

(** ** parseHotkey and validateKeybind *)

Module KeybindFacts.
Import JsString JsObject KeybindCodec Vocabulary JsStringFacts.

(** *** Splitting *)

Lemma tokens_split s : tokens s = (modifierTokens s ++ [finalToken s])%list.
Proof.
  unfold modifierTokens, finalToken.
  apply app_removelast_last, split_nonempty.
Qed.

Lemma join_cons sep p q rest :
  join sep (p :: q :: rest) = p ++ sep ++ join sep (q :: rest).
Proof. reflexivity. Qed.

(** Joining the tokens with the separator gives the string back. *)
Lemma join_split sep s : join (str sep) (split sep s) = s.
Proof.
  induction s as [|c s IH]; [done |].
  simpl split. destruct (ascii_dec c sep) as [-> | Hne].
  - pose proof (split_nonempty sep s) as Hs.
    destruct (split sep s) as [|q rest]; [done |].
    rewrite join_cons, IH. reflexivity.
  - pose proof (split_nonempty sep s) as Hs.
    destruct (split sep s) as [|h [|q rest]]; [done | |].
    + simpl in *. by rewrite IH.
    + rewrite join_cons. rewrite join_cons in IH. by rewrite <- IH.
Qed.

(** No token holds the separator. *)
Lemma split_no_sep sep s : Forall (fun t => ~ In sep (chars t)) (split sep s).
Proof.
  induction s as [|c s IH]; simpl.
  - constructor; [by intros [] | constructor].
  - destruct (ascii_dec c sep) as [-> | Hne].
    + constructor; [by intros [] | done].
    + pose proof (split_nonempty sep s) as Hs.
      destruct (split sep s) as [|h t]; [done |].
      inversion IH; subst.
      constructor; [| done].
      simpl. intros [? | ?]; [congruence | done].
Qed.

(** *** The modifier table *)

Lemma modifierName_table :
  modifierName "cmd" = "command" /\ modifierName "ctrl" = "control"
  /\ modifierName "opt" = "option" /\ modifierName "shift" = "shift".
Proof. repeat split. Qed.

(** A token that names neither a table entry nor an inherited member is
    its own name. *)
Lemma modifierName_other m :
  assoc m modifierMap = None -> assoc m object_prototype = None ->
  modifierName m = m.
Proof. unfold modifierName, get. by intros -> ->. Qed.

(** A token that is one of the abbreviations up to case, and not one of
    them exactly, is its own name. *)
Lemma modifierName_other_case m :
  toLowerCase m ∈ validModifiers -> m ∉ validModifiers -> modifierName m = m.
Proof.
  intros Hlow Hnot. apply modifierName_other.
  - unfold modifierMap. simpl. lookup_cases; try done;
      exfalso; apply Hnot; unfold validModifiers; set_solver.
  - unfold object_prototype. simpl. lookup_cases; try done;
      vm_compute in Hlow; elem_cases Hlow; discriminate.
Qed.

(** A name of the table comes out only for its abbreviation, or for a
    token that already is that name. *)
Lemma modifierName_canonical m :
  modifierName m ∈ ["command"; "control"; "option"; "shift"] ->
  m ∈ validModifiers \/ modifierName m = m.
Proof.
  unfold modifierName, get, modifierMap, validModifiers. cbn [assoc].
  lookup_cases; try (intros _; left; set_solver).
  destruct (assoc m object_prototype) as [text |] eqn:Hproto; [| by right].
  revert Hproto. unfold object_prototype. cbn [assoc].
  lookup_cases; intros [= <-] H; vm_compute in H; elem_cases H; discriminate.
Qed.

(** What [parseHotkey] computes, token by token. *)
Lemma parseHotkey_tokens s :
  key (parseHotkey s) = finalToken s
  /\ modifiers (parseHotkey s)
     = map (fun m => modifierName m ++ " down") (modifierTokens s).
Proof. done. Qed.

(** C6. An unrecognized modifier token does not always pass through
    unchanged: the token constructor is no entry of the modifier table,
    and [parseHotkey] turns it into the text of the member every object
    inherits under that name. Every other token is treated as specified
    ([parseHotkey_tokens], [modifierName_table], [modifierName_other]). *)
Theorem parseHotkey_inherited_member :
  assoc "constructor" modifierMap = None
  /\ parseHotkey "constructor+f14"
     = {| key := "f14";
          modifiers := ["function Object() { [native code] } down"] |}
  /\ parseHotkey "cmd+shift+f14"
     = {| key := "f14"; modifiers := ["command down"; "shift down"] |}.
Proof. repeat split. Qed.

(** *** validateKeybind *)

Lemma badModifier_true m : badModifier m = true <-> toLowerCase m ∉ validModifiers.
Proof.
  unfold badModifier, includes.
  rewrite negb_true_iff, bool_decide_eq_false. done.
Qed.

Lemma badModifier_false m : badModifier m = false <-> toLowerCase m ∈ validModifiers.
Proof.
  unfold badModifier, includes.
  rewrite negb_false_iff, bool_decide_eq_true. done.
Qed.

Lemma modifierTokens_length s : S (length (modifierTokens s)) = length (tokens s).
Proof. rewrite (tokens_split s) at 1. rewrite length_app. simpl. lia. Qed.

(** A string with two tokens or more is not empty. *)
Lemma tokens_truthy s : 2 <= length (tokens s) -> truthy s = true.
Proof. destruct s; [simpl; lia | done]. Qed.

(** [validateKeybind], with its checks in the order it makes them. *)
Lemma validateKeybind_unfold s :
  validateKeybind s =
    if negb (truthy s) then Some "Keybind cannot be empty"
    else if (length (tokens s) <? 2)%nat
         then Some "Keybind must have modifiers (e.g., cmd+f13)"
         else match find badModifier (modifierTokens s) with
              | Some m => Some ("Invalid modifier: " ++ m)
              | None =>
                  if negb (includes supportedKeys (toLowerCase (finalToken s)))
                     && negb (String.length (toLowerCase (finalToken s)) =? 1)%nat
                  then Some "Key must be f13-f20 or a single character"
                  else None
              end.
Proof. reflexivity. Qed.

Lemma validateKeybind_few_tokens s :
  length (tokens s) < 2 -> is_Some (validateKeybind s).
Proof.
  intros H. rewrite validateKeybind_unfold.
  destruct (truthy s); simpl; [| by eexists].
  destruct (Nat.ltb_spec (length (tokens s)) 2); [by eexists | lia].
Qed.

Lemma validateKeybind_bad_modifier s m :
  m ∈ modifierTokens s -> toLowerCase m ∉ validModifiers ->
  exists m', m' ∈ modifierTokens s /\ (toLowerCase m' ∉ validModifiers)
             /\ validateKeybind s = Some ("Invalid modifier: " ++ m').
Proof.
  intros Hin Hbad.
  assert (2 <= length (tokens s)) as Hlen.
  { rewrite <- modifierTokens_length.
    destruct (modifierTokens s); [by apply elem_of_nil in Hin | simpl; lia]. }
  rewrite validateKeybind_unfold, (tokens_truthy s Hlen). simpl.
  destruct (Nat.ltb_spec (length (tokens s)) 2); [lia |].
  destruct (find badModifier (modifierTokens s)) as [m' |] eqn:Hfind.
  - apply find_some in Hfind as [Hin' Hbad'].
    exists m'. split; [by apply list_elem_of_In |].
    split; [by apply badModifier_true | done].
  - apply list_elem_of_In in Hin.
    apply (find_none _ _ Hfind) in Hin.
    apply badModifier_true in Hbad. congruence.
Qed.

Lemma validateKeybind_accepts s :
  2 <= length (tokens s) ->
  Forall (fun m => toLowerCase m ∈ validModifiers) (modifierTokens s) ->
  toLowerCase (finalToken s) ∈ supportedKeys
  \/ String.length (toLowerCase (finalToken s)) = 1 ->
  validateKeybind s = None.
Proof.
  intros Hlen Hmods Hkey.
  rewrite validateKeybind_unfold, (tokens_truthy s Hlen). simpl.
  destruct (Nat.ltb_spec (length (tokens s)) 2); [lia |].
  destruct (find badModifier (modifierTokens s)) as [m' |] eqn:Hfind.
  - apply find_some in Hfind as [Hin' Hbad'].
    rewrite Forall_forall in Hmods.
    apply list_elem_of_In, Hmods, badModifier_false in Hin'. congruence.
  - unfold includes.
    destruct Hkey as [Hkey | ->].
    + by rewrite (bool_decide_eq_true_2 _ Hkey).
    + by rewrite andb_false_r.
Qed.

(** What acceptance tells about the string. *)
Lemma validateKeybind_None s :
  validateKeybind s = None ->
  2 <= length (tokens s)
  /\ Forall (fun m => toLowerCase m ∈ validModifiers) (modifierTokens s)
  /\ (toLowerCase (finalToken s) ∈ supportedKeys
      \/ String.length (finalToken s) = 1).
Proof.
  rewrite validateKeybind_unfold.
  destruct (truthy s); simpl; [| done].
  destruct (Nat.ltb_spec (length (tokens s)) 2); [done |].
  destruct (find badModifier (modifierTokens s)) as [m' |] eqn:Hfind; [done |].
  rewrite length_toLowerCase. unfold includes.
  intros Hkey. split; [lia |]. split.
  - apply Forall_forall. intros m Hin.
    apply badModifier_false, (find_none _ _ Hfind), list_elem_of_In, Hin.
  - destruct (bool_decide_reflect (toLowerCase (finalToken s) ∈ supportedKeys));
      [by left |].
    destruct (Nat.eqb_spec (String.length (finalToken s)) 1); [by right | done].
Qed.

(** C2, as the code has it. [validateKeybind] is an error for the empty
    string and for every string of fewer than two tokens; for a string
    with a modifier token that is none of cmd, ctrl, opt and shift once
    put in lower case, it is the error that names such a token; and it
    accepts every string of two tokens or more whose modifier tokens are
    all among the four in lower case and whose final token is, in lower
    case, one of f13..f20 or is one character long. It accepts cmd+f13
    and refuses f13 and cmd+f21. *)
Theorem validateKeybind_spec :
  is_Some (validateKeybind EmptyString)
  /\ (forall s : string, length (tokens s) < 2 -> is_Some (validateKeybind s))
  /\ (forall s m : string,
         m ∈ modifierTokens s -> toLowerCase m ∉ validModifiers ->
         exists m' : string,
           m' ∈ modifierTokens s /\ (toLowerCase m' ∉ validModifiers)
           /\ validateKeybind s = Some ("Invalid modifier: " ++ m'))
  /\ (forall s : string,
         2 <= length (tokens s) ->
         Forall (fun m => toLowerCase m ∈ validModifiers) (modifierTokens s) ->
         toLowerCase (finalToken s) ∈ supportedKeys
         \/ String.length (toLowerCase (finalToken s)) = 1 ->
         validateKeybind s = None)
  /\ validateKeybind "cmd+f13" = None
  /\ is_Some (validateKeybind "f13")
  /\ is_Some (validateKeybind "cmd+f21").
Proof.
  split; [by eexists |].
  split; [exact validateKeybind_few_tokens |].
  split; [exact validateKeybind_bad_modifier |].
  split; [exact validateKeybind_accepts |].
  repeat split; by eexists.
Qed.

Lemma validateKeybind_spec_witness :
  let s := "Ctrl+shift+a" in
  2 <= length (tokens s)
  /\ Forall (fun m => toLowerCase m ∈ validModifiers) (modifierTokens s)
  /\ (toLowerCase (finalToken s) ∈ supportedKeys
      \/ String.length (toLowerCase (finalToken s)) = 1)
  /\ validateKeybind s = None.
Proof.
  intros s.
  assert (2 <= length (tokens s)) as H1 by (vm_compute; lia).
  assert (Forall (fun m => toLowerCase m ∈ validModifiers) (modifierTokens s)) as H2
    by by_evaluation (Forall (fun m => toLowerCase m ∈ validModifiers) (modifierTokens s)).
  assert (toLowerCase (finalToken s) ∈ supportedKeys
          \/ String.length (toLowerCase (finalToken s)) = 1)
    as H3 by (right; reflexivity).
  exact (conj H1 (conj H2 (conj H3
    (proj1 (proj2 (proj2 (proj2 validateKeybind_spec))) s H1 H2 H3)))).
Defined.

(** The modifier token CMD is outside cmd, ctrl, opt and shift, and the
    string is accepted all the same. *)
Lemma validateKeybind_upper_case_modifier :
  "CMD" ∈ modifierTokens "CMD+f13"
  /\ ("CMD" ∉ validModifiers)
  /\ validateKeybind "CMD+f13" = None.
Proof.
  split; [vm_compute; set_solver |].
  split; [| reflexivity].
  unfold validModifiers. intros H. elem_cases H; discriminate.
Qed.

(** *** The case of the modifier tokens *)

Lemma length_append s t : String.length (s ++ t) = String.length s + String.length t.
Proof. induction s as [|c s IH]; [done |]. cbn [String.append String.length]. by rewrite IH. Qed.

Lemma append_cancel_r a b t : a ++ t = b ++ t -> a = b.
Proof.
  revert b. induction a as [|c a IH]; intros [|d b] H; [done | | |].
  - apply (f_equal String.length) in H.
    cbn [String.append String.length] in H. rewrite length_append in H. lia.
  - apply (f_equal String.length) in H.
    cbn [String.append String.length] in H. rewrite length_append in H. lia.
  - cbn [String.append] in H. injection H as -> H. by rewrite (IH b H).
Qed.

(** An abbreviation in another case, followed by the word down, is none of
    the canonical names. *)
Lemma other_case_outside m :
  toLowerCase m ∈ validModifiers -> m ∉ validModifiers ->
  m ++ " down" ∉ canonicalModifiers.
Proof.
  intros Hlow Hnot Hin. unfold canonicalModifiers in Hin.
  apply elem_of_cons in Hin as [Hin | Hin].
  { apply (append_cancel_r m "command" " down") in Hin. subst m.
    vm_compute in Hlow. elem_cases Hlow; discriminate. }
  apply elem_of_cons in Hin as [Hin | Hin].
  { apply (append_cancel_r m "control" " down") in Hin. subst m.
    vm_compute in Hlow. elem_cases Hlow; discriminate. }
  apply elem_of_cons in Hin as [Hin | Hin].
  { apply (append_cancel_r m "option" " down") in Hin. subst m.
    vm_compute in Hlow. elem_cases Hlow; discriminate. }
  apply elem_of_cons in Hin as [Hin | Hin]; [| by apply elem_of_nil in Hin].
  apply (append_cancel_r m "shift" " down") in Hin. subst m.
  apply Hnot. unfold validModifiers. repeat constructor.
Qed.

(** What [parseHotkey] makes of one modifier token. *)
Lemma modifier_of_token token :
  let modifier := modifierName token ++ " down" in
  (token = "cmd" -> modifier = "command down")
  /\ (token = "ctrl" -> modifier = "control down")
  /\ (token = "opt" -> modifier = "option down")
  /\ (token = "shift" -> modifier = "shift down")
  /\ (toLowerCase token ∈ validModifiers -> token ∉ validModifiers ->
      modifier = token ++ " down" /\ modifier ∉ canonicalModifiers)
  /\ (modifier ∈ canonicalModifiers ->
      token ∈ validModifiers \/ modifier = token ++ " down").
Proof.
  intros modifier. unfold modifier.
  split; [by intros -> |]. split; [by intros -> |].
  split; [by intros -> |]. split; [by intros -> |]. split.
  - intros Hlow Hnot. rewrite (modifierName_other_case token Hlow Hnot).
    split; [done | by apply other_case_outside].
  - intros Hin.
    destruct (modifierName_canonical token) as [H | H]; [| by left | right; by rewrite H].
    unfold canonicalModifiers in Hin.
    elem_cases Hin;
      [ apply (append_cancel_r _ "command" " down") in Hin
      | apply (append_cancel_r _ "control" " down") in Hin
      | apply (append_cancel_r _ "option" " down") in Hin
      | apply (append_cancel_r _ "shift" " down") in Hin ];
      rewrite Hin; repeat constructor.
Qed.

(** C7. The table lookup of [parseHotkey] matches a token exactly. Token
    by token, [parseHotkey] turns cmd, ctrl, opt and shift into command
    down, control down, option down and shift down, passes any other
    casing of an abbreviation through as typed, and gives a canonical name
    for no other token (a token that already is such a name apart). So a
    string that [validateKeybind] accepts with a modifier token that is
    not in lower case gives a modifier outside the canonical names, as
    CMD+f13 does. *)
Theorem parseHotkey_case_sensitive :
  (forall s : string,
      key (parseHotkey s) = finalToken s
      /\ Forall2 (fun token modifier : string =>
                    (token = "cmd" -> modifier = "command down")
                    /\ (token = "ctrl" -> modifier = "control down")
                    /\ (token = "opt" -> modifier = "option down")
                    /\ (token = "shift" -> modifier = "shift down")
                    /\ (toLowerCase token ∈ validModifiers -> token ∉ validModifiers ->
                        modifier = token ++ " down" /\ modifier ∉ canonicalModifiers)
                    /\ (modifier ∈ canonicalModifiers ->
                        token ∈ validModifiers \/ modifier = token ++ " down"))
                 (modifierTokens s) (modifiers (parseHotkey s)))
  /\ (forall s token : string,
         validateKeybind s = None ->
         token ∈ modifierTokens s -> token ∉ validModifiers ->
         token ++ " down" ∈ modifiers (parseHotkey s)
         /\ token ++ " down" ∉ canonicalModifiers)
  /\ validateKeybind "CMD+f13" = None
  /\ parseHotkey "CMD+f13" = {| key := "f13"; modifiers := ["CMD down"] |}
  /\ parseHotkey "cmd+f13" = {| key := "f13"; modifiers := ["command down"] |}
  /\ exists s modifier : string,
      validateKeybind s = None
      /\ modifier ∈ modifiers (parseHotkey s)
      /\ modifier ∉ canonicalModifiers.
Proof.
  split; [| split; [| split; [done | split; [done | split; [done |]]]]]; cycle 2.
  { exists "CMD+f13", "CMD down". split; [reflexivity |].
    split; [vm_compute; repeat constructor |].
    unfold canonicalModifiers. intros H. elem_cases H; discriminate. }
  - intros s. split; [reflexivity |].
    change (modifiers (parseHotkey s))
      with (map (fun m => modifierName m ++ " down") (modifierTokens s)).
    induction (modifierTokens s) as [|token rest IH]; constructor; [| exact IH].
    exact (modifier_of_token token).
  - intros s token Hok Hin Hnot.
    destruct (validateKeybind_None s Hok) as (_ & Hmods & _).
    assert (toLowerCase token ∈ validModifiers) as Hlow
      by exact (proj1 (Forall_forall _ _) Hmods token Hin).
    split; [| by apply other_case_outside].
    change (modifiers (parseHotkey s))
      with (map (fun m => modifierName m ++ " down") (modifierTokens s)).
    apply list_elem_of_fmap. exists token. split; [| done].
    by rewrite (modifierName_other_case token Hlow Hnot).
Qed.

Lemma parseHotkey_case_sensitive_witness :
  validateKeybind "ctrl+Shift+a" = None
  /\ "Shift" ∈ modifierTokens "ctrl+Shift+a"
  /\ ("Shift" ∉ validModifiers)
  /\ "Shift down" ∈ modifiers (parseHotkey "ctrl+Shift+a")
  /\ ("Shift down" ∉ canonicalModifiers).
Proof.
  assert (validateKeybind "ctrl+Shift+a" = None) as H0 by reflexivity.
  assert ("Shift" ∈ modifierTokens "ctrl+Shift+a") as H1
    by by_evaluation ("Shift" ∈ modifierTokens "ctrl+Shift+a").
  assert ("Shift" ∉ validModifiers) as H2 by by_evaluation ("Shift" ∉ validModifiers).
  exact (conj H0 (conj H1 (conj H2
    (proj1 (proj2 parseHotkey_case_sensitive) "ctrl+Shift+a" "Shift" H0 H1 H2)))).
Defined.

End KeybindFacts.

(** ** The host monad *)

Module HostFacts.
Import Host.

Lemma after_nil w : after w [] = w.
Proof. destruct w. unfold after. simpl. by rewrite app_nil_r. Qed.

Lemma after_after w evs evs' : after (after w evs) evs' = after w (evs ++ evs').
Proof. unfold after. simpl. by rewrite app_assoc. Qed.

Lemma storage_after w evs : storage (after w evs) = storage w.
Proof. reflexivity. Qed.

Lemma emit_after e w : emit e w = (Returned tt, after w [e]).
Proof. reflexivity. Qed.

Lemma getItem_after k w : getItem k w = (Returned (storage w !! k), after w [GetItem k]).
Proof. reflexivity. Qed.

Lemma bind_returned {A B : Type} (m : task A) (k : A -> task B) w a w' :
  m w = (Returned a, w') -> bind m k w = k a w'.
Proof. unfold bind. by intros ->. Qed.

Lemma bind_threw {A B : Type} (m : task A) (k : A -> task B) w e w' :
  m w = (Threw e, w') -> bind m k w = (Threw e, w').
Proof. unfold bind. by intros ->. Qed.

Lemma runAppleScript_after bridge script w :
  runAppleScript bridge script w
  = (match bridge script with None => Returned tt | Some e => Threw e end,
     after w [RunAppleScript script]).
Proof.
  unfold runAppleScript. rewrite (bind_returned _ _ _ _ _ (emit_after _ w)).
  by destruct (bridge script).
Qed.

(** A task that leaves [w] after [evs] has [evs] as its trace. *)
Lemma trace_after {A : Type} (t : task A) w o evs :
  t w = (o, after w evs) -> trace t w = evs.
Proof.
  unfold trace. intros ->. simpl. by rewrite drop_app_length.
Qed.

End HostFacts.

(** ** simulateKeybind and pingDevice *)

Module SimulatorFacts.
Import JsString JsObject JsNumber KeybindCodec Host KeystrokeSimulator.
Import Vocabulary JsStringFacts HostFacts KeybindFacts.

(** Every run of [pingDevice] returns, with one of the two traces. *)
Lemma pingDevice_run bridge deviceName w :
  pingDevice bridge deviceName w
  = (Returned tt,
     after w (if unsupported (key (parseHotkey (storedKeybind w)))
              then refusedTrace w
              else pingTrace bridge w deviceName)).
Proof.
  unfold pingDevice, tryCatch, mbind, task_bind.
  rewrite (bind_returned _ _ _ _ _ (getItem_after _ w)).
  rewrite (bind_returned _ _ _ _ _ (getItem_after _ _)).
  rewrite !storage_after, after_after.
  fold (storedKeybind w). fold (storedDelay w).
  destruct (unsupported (key (parseHotkey (storedKeybind w)))) eqn:Hu.
  - unfold showToast. rewrite emit_after, after_after. reflexivity.
  - unfold showToast.
    rewrite (bind_returned _ _ _ _ _ (emit_after _ _)), after_after.
    fold (sentScript w deviceName).
    unfold bind. rewrite runAppleScript_after. unfold pingTrace.
    destruct (bridge (sentScript w deviceName)) as [e |];
      rewrite emit_after, !after_after; reflexivity.
Qed.

Lemma pingDevice_trace bridge deviceName w :
  trace (pingDevice bridge deviceName) w
  = if unsupported (key (parseHotkey (storedKeybind w)))
    then refusedTrace w
    else pingTrace bridge w deviceName.
Proof. eapply trace_after, pingDevice_run. Qed.

(** The loop of [simulateKeybind] only updates the notification and waits. *)
Lemma countdown_run n w :
  exists evs, countdown n w = (Returned tt, after w evs) /\ scripts evs = [].
Proof.
  revert w. induction n as [|i IH]; intros w.
  - exists []. by rewrite after_nil.
  - simpl countdown. unfold mbind, task_bind.
    rewrite (bind_returned _ _ _ _ _ (emit_after _ w)).
    rewrite (bind_returned _ _ _ _ _ (emit_after _ _)).
    match goal with
    | |- context [countdown i ?w'] => destruct (IH w') as (evs & -> & Hevs)
    end.
    eexists. rewrite !after_after. split; [reflexivity |].
    unfold scripts in *. simpl. exact Hevs.
Qed.

(** A refused key makes [simulateKeybind] throw before it sends anything. *)
Lemma simulateKeybind_refused bridge s w :
  unsupported (key (parseHotkey s)) = true ->
  simulateKeybind bridge s w
  = (Threw (ErrorObject ("Unsupported function key: " ++ key (parseHotkey s)
                         ++ ". Only f13-f20 are supported.")),
     after w [CloseMainWindow]).
Proof.
  intros Hu. unfold simulateKeybind, mbind, task_bind, closeMainWindow.
  rewrite (bind_returned _ _ _ _ _ (emit_after _ w)). by rewrite Hu.
Qed.

(** A key that resolves makes [simulateKeybind] send its one script, after
    the countdown. *)
Lemma simulateKeybind_run bridge s w :
  unsupported (key (parseHotkey s)) = false ->
  exists o evs,
    simulateKeybind bridge s w = (o, after w evs)
    /\ scripts evs
       = [simulateScript (keyCommand (key (parseHotkey s)) (modifiers (parseHotkey s)))].
Proof.
  intros Hu. unfold simulateKeybind, mbind, task_bind, closeMainWindow, showToast.
  rewrite (bind_returned _ _ _ _ _ (emit_after _ w)), Hu.
  rewrite (bind_returned _ _ _ _ _ (emit_after _ _)), after_after.
  destruct (countdown_run 10 (after w ([CloseMainWindow] ++
    [ShowToast Animated "Simulating in 10 seconds..." None]))) as (evs & Hrun & Hevs).
  rewrite (bind_returned _ _ _ _ _ Hrun), after_after.
  rewrite (bind_returned _ _ _ _ _ (emit_after _ _)), after_after.
  unfold bind. rewrite runAppleScript_after, after_after.
  set (script := simulateScript _).
  destruct (bridge script).
  - do 2 eexists. split; [reflexivity |].
    unfold scripts in *. rewrite !omap_app, Hevs. reflexivity.
  - rewrite emit_after, after_after.
    do 2 eexists. split; [reflexivity |].
    unfold scripts in *. rewrite !omap_app, Hevs. reflexivity.
Qed.

Lemma simulateKeybind_sends bridge s w :
  unsupported (key (parseHotkey s)) = false ->
  scripts (trace (simulateKeybind bridge s) w)
  = [simulateScript (keyCommand (key (parseHotkey s)) (modifiers (parseHotkey s)))].
Proof.
  intros Hu. destruct (simulateKeybind_run bridge s w Hu) as (o & evs & Hrun & Hevs).
  by rewrite (trace_after _ _ _ _ Hrun).
Qed.

(** *** Which keys are refused *)

Lemma prototype_not_f k :
  startsWith k "f" = true -> assoc k object_prototype = None.
Proof.
  destruct k as [|c k]; [done |].
  change "f" with (str "f"). rewrite startsWith_char.
  destruct (ascii_dec "f" c) as [<- |]; [| done].
  intros _. reflexivity.
Qed.

(** A key that starts with f, in lower case, and has no entry in the table
    is refused. *)
Lemma unsupported_f_prefixed k :
  startsWith (toLowerCase k) "f" = true ->
  assoc (toLowerCase k) keycodeMap = None ->
  unsupported k = true.
Proof.
  intros Hf Hnone. unfold unsupported, keycode, get.
  by rewrite Hnone, (prototype_not_f _ Hf), Hf.
Qed.

Lemma keycode_supported k :
  k ∈ supportedKeys ->
  exists n, (k, n) ∈ keycodeMap /\ get keycodeMap k = Own n /\ number_truthy n = true.
Proof.
  intros H. unfold supportedKeys in H. elem_cases H;
    (eexists; split; [| split; reflexivity]); unfold keycodeMap; set_solver.
Qed.

Lemma keycode_single_char c :
  get keycodeMap (str c) = Undefined.
Proof.
  unfold get, keycodeMap, object_prototype, str. cbn [assoc].
  lookup_cases. done.
Qed.

(** What an accepted keybind resolves to: a key code of the table, a
    one-character keystroke, or, when its key is the letter f, nothing. *)
Lemma validated_resolution s :
  validateKeybind s = None ->
  let parsed := parseHotkey s in
  (toLowerCase (key parsed) = "f" /\ unsupported (key parsed) = true)
  \/ (unsupported (key parsed) = false
      /\ ((exists n, (toLowerCase (key parsed), n) ∈ keycodeMap
                     /\ keyCommand (key parsed) (modifiers parsed)
                        = "key code " ++ toString n ++ modifierString (modifiers parsed))
          \/ (String.length (key parsed) = 1
              /\ keyCommand (key parsed) (modifiers parsed)
                 = "keystroke " ++ str dquote ++ key parsed ++ str dquote
                   ++ modifierString (modifiers parsed)))).
Proof.
  intros Hok parsed.
  destruct (validateKeybind_None s Hok) as (_ & _ & Hkey).
  change (finalToken s) with (key parsed) in Hkey.
  destruct (bool_decide_reflect (toLowerCase (key parsed) ∈ supportedKeys)) as [Hin | Hout].
  - right. destruct (keycode_supported _ Hin) as (n & Hn & Hget & Htruthy).
    unfold unsupported, keyCommand, keycode. rewrite Hget. simpl. rewrite Htruthy.
    split; [done |]. left. exists n. done.
  - destruct Hkey as [Hkey | Hlen]; [done |].
    destruct (key parsed) as [|c [|]] eqn:Ek; try discriminate Hlen.
    simpl toLowerCase in *.
    destruct (ascii_dec (lower_char c) "f") as [Hf | Hf].
    + left. rewrite Hf. split; [done |].
      apply unsupported_f_prefixed; cbn [toLowerCase]; rewrite Hf; reflexivity.
    + right. unfold unsupported, keyCommand, keycode. simpl toLowerCase.
      change (String (lower_char c) "") with (str (lower_char c)).
      rewrite keycode_single_char. simpl negb. simpl keycode_truthy.
      change "f" with (str "f"). unfold str at 1. rewrite startsWith_char.
      destruct (ascii_dec "f" (lower_char c)); [congruence |].
      split; [done |]. right. done.
Qed.

(** *** The settings form *)

(** Accepted settings are stored. *)
Lemma handleSubmit_stores keybind delay w :
  validateKeybind keybind = None -> validateDelay delay = None ->
  handleSubmit keybind delay w
  = (Returned tt,
     {| storage := <["siriDelay" := delay]> (<["siriKeybind" := keybind]> (storage w));
        events := (events w ++ [ SetItem "siriKeybind" keybind; SetItem "siriDelay" delay;
                                 ShowToast Success "Settings saved" None ])%list |}).
Proof.
  intros Hk Hd. unfold handleSubmit. rewrite Hk, Hd.
  unfold mbind, task_bind, bind, setItem, showToast, emit. simpl.
  by rewrite <- !(assoc_L (++)%list).
Qed.

(** Refused settings are not: the store is left as it was. *)
Lemma handleSubmit_refuses keybind delay w :
  is_Some (validateKeybind keybind) \/ is_Some (validateDelay delay) ->
  storage (snd (handleSubmit keybind delay w)) = storage w
  /\ exists message,
      trace (handleSubmit keybind delay) w
      = [ShowToast Failure "Invalid input" (Some message)].
Proof.
  intros H. unfold handleSubmit.
  destruct (validateKeybind keybind) as [m |], (validateDelay delay) as [m' |].
  - split; [done |]. exists m. by eapply trace_after.
  - split; [done |]. exists m. by eapply trace_after.
  - split; [done |]. exists m'. by eapply trace_after.
  - by destruct H as [[? ?] | [? ?]].
Qed.

(** The keybind cmd+f passes the form and is then refused by [pingDevice]. *)
Lemma accepted_f_key_end_to_end bridge deviceName w :
  let w' := snd (handleSubmit "cmd+f" "1" w) in
  storage w' !! "siriKeybind" = Some "cmd+f"
  /\ scripts (trace (pingDevice bridge deviceName) w') = [].
Proof.
  assert (validateDelay "1" = None) as Hd by (by vm_compute).
  rewrite (handleSubmit_stores "cmd+f" "1" w eq_refl Hd). cbn [snd storage].
  assert ((<["siriDelay" := "1"]> (<["siriKeybind" := "cmd+f"]> (storage w)) : gmap string string)
            !! "siriKeybind" = Some "cmd+f") as Hget.
  { rewrite lookup_insert_ne by done. apply lookup_insert_eq. }
  split; [exact Hget |].
  rewrite pingDevice_trace. unfold refusedTrace, storedKeybind. cbn [storage].
  rewrite Hget. reflexivity.
Qed.

(** [handleSimulate] stores and simulates whatever was typed. *)
Lemma handleSimulate_sends bridge keybind delay w :
  unsupported (key (parseHotkey keybind)) = false ->
  scripts (trace (handleSimulate bridge keybind delay) w)
  = [simulateScript (keyCommand (key (parseHotkey keybind))
                                (modifiers (parseHotkey keybind)))].
Proof.
  intros Hu. unfold trace, handleSimulate, mbind, task_bind, bind, setItem. simpl.
  match goal with
  | |- context [simulateKeybind bridge keybind ?w'] =>
      destruct (simulateKeybind_run bridge keybind w' Hu) as (o & evs & Hrun & Hevs)
  end.
  rewrite Hrun. unfold after. simpl.
  rewrite <- !(assoc_L (++)%list), drop_app_length. exact Hevs.
Qed.

(** A modifier token that names an inherited member reaches the script. *)
Lemma inherited_member_end_to_end w :
  scripts (trace (handleSimulate (fun _ => None) "constructor+f14" "1") w)
  = [simulateScript "key code 107 using {function Object() { [native code] } down}"].
Proof. by rewrite handleSimulate_sends. Qed.

(** C1. The round trip fails on an accepted string: [validateKeybind]
    accepts cmd+f, whose key is one character long, and both actions refuse
    that key as an unsupported function key instead of sending it as a
    keystroke. Every other accepted string resolves ([validated_resolution]). *)
Theorem validated_f_key_refused :
  validateKeybind "cmd+f" = None
  /\ parseHotkey "cmd+f" = {| key := "f"; modifiers := ["command down"] |}
  /\ unsupported "f" = true
  /\ (forall bridge w,
         simulateKeybind bridge "cmd+f" w
         = (Threw (ErrorObject "Unsupported function key: f. Only f13-f20 are supported."),
            after w [CloseMainWindow]))
  /\ (forall bridge deviceName w,
         storage w !! "siriKeybind" = Some "cmd+f" ->
         trace (pingDevice bridge deviceName) w
         = [ GetItem "siriKeybind"; GetItem "siriDelay";
             ShowToast Failure "Unsupported function key"
               (Some "f is not supported. Only f13-f20 are supported.") ]).
Proof.
  split; [reflexivity |]. split; [reflexivity |]. split; [reflexivity |].
  split.
  - intros bridge w. by rewrite simulateKeybind_refused.
  - intros bridge deviceName w Hw. rewrite pingDevice_trace.
    unfold refusedTrace, storedKeybind. rewrite Hw. reflexivity.
Qed.

Lemma validated_f_key_refused_witness :
  let w := {| storage := {["siriKeybind" := "cmd+f"]}; events := [] |} in
  storage w !! "siriKeybind" = Some "cmd+f"
  /\ trace (pingDevice (fun _ => None) "iPhone") w
     = [ GetItem "siriKeybind"; GetItem "siriDelay";
         ShowToast Failure "Unsupported function key"
           (Some "f is not supported. Only f13-f20 are supported.") ].
Proof.
  intros w.
  exact (conj eq_refl
    (proj2 (proj2 (proj2 (proj2 validated_f_key_refused)))
       (fun _ => None) "iPhone" w eq_refl)).
Defined.

(** C3. When the stored keybind resolves to a key command [K], the one
    script [pingDevice] sends is: tell System Events / [K] / end tell, delay
    [d], tell System Events / keystroke ping my [D] / delay 0.3 / key code
    36 / end tell, where [d] is the text of the stored delay and [D] the
    escaped device name. [K] is a key code or a keystroke, followed, when
    there are modifiers, by using, an opening brace, the modifiers (each a
    name and the word down) separated by commas, and a closing brace. *)
Theorem pingDevice_script_shape
        (bridge : string -> option thrown) (deviceName : string) (w : world) :
  let parsed := parseHotkey (storedKeybind w) in
  let K := keyCommand (key parsed) (modifiers parsed) in
  let d := toString (storedDelay w) in
  let D := sanitizeForAppleScript deviceName in
  let q := str dquote in
  unsupported (key parsed) = false ->
  scripts (trace (pingDevice bridge deviceName) w)
  = [ nl ++ "    tell application " ++ q ++ "System Events" ++ q ++ nl
         ++ "      " ++ K ++ nl
         ++ "    end tell" ++ nl
         ++ "    delay " ++ d ++ nl
         ++ "    tell application " ++ q ++ "System Events" ++ q ++ nl
         ++ "      keystroke " ++ q ++ "ping my " ++ D ++ q ++ nl
         ++ "      delay 0.3" ++ nl
         ++ "      key code 36" ++ nl
         ++ "    end tell" ++ nl
         ++ "  " ]
  /\ (exists base : string,
         K = base ++ modifierString (modifiers parsed)
         /\ (base = "key code " ++ keycode_text (keycode (key parsed))
             \/ base = "keystroke " ++ q ++ key parsed ++ q))
  /\ Forall (fun m => exists name : string, m = name ++ " down") (modifiers parsed)
  /\ (modifiers parsed <> [] ->
      modifierString (modifiers parsed)
      = " using {" ++ join ", " (modifiers parsed) ++ "}").
Proof.
  intros parsed K d D q Hu. split; [| split; [| split]].
  - rewrite pingDevice_trace. fold parsed. rewrite Hu.
    unfold scripts, pingTrace.
    destruct (bridge (sentScript w deviceName)); reflexivity.
  - unfold K, keyCommand.
    destruct (keycode_truthy (keycode (key parsed))).
    + exists ("key code " ++ keycode_text (keycode (key parsed))).
      split; [by rewrite !JsStringFacts.app_assoc | by left].
    + exists ("keystroke " ++ q ++ key parsed ++ q).
      split; [by rewrite !JsStringFacts.app_assoc | by right].
  - unfold parsed, parseHotkey. cbn [modifiers].
    apply Forall_forall. intros m Hin. apply list_elem_of_In, in_map_iff in Hin as (t & <- & _).
    by exists (modifierName t).
  - unfold modifierString. by destruct (modifiers parsed).
Qed.

(** The default settings on an untouched store: cmd+f13 after one second. *)
Lemma pingDevice_script_shape_witness :
  unsupported (key (parseHotkey (storedKeybind initial))) = false
  /\ scripts (trace (pingDevice (fun _ => None) "iPhone") initial)
     = [ nl ++ "    tell application " ++ str dquote ++ "System Events" ++ str dquote ++ nl
            ++ "      key code 105 using {command down}" ++ nl
            ++ "    end tell" ++ nl
            ++ "    delay 1" ++ nl
            ++ "    tell application " ++ str dquote ++ "System Events" ++ str dquote ++ nl
            ++ "      keystroke " ++ str dquote ++ "ping my iPhone" ++ str dquote ++ nl
            ++ "      delay 0.3" ++ nl
            ++ "      key code 36" ++ nl
            ++ "    end tell" ++ nl
            ++ "  " ].
Proof.
  split; [reflexivity |].
  etransitivity;
    [exact (proj1 (pingDevice_script_shape (fun _ => None) "iPhone" initial eq_refl)) |].
  vm_compute. reflexivity.
Defined.

(** C5. A key that starts with f, in lower case, and has no entry in the
    key-code table is reported before any script is sent: [pingDevice]
    shows the failure Unsupported function key with the key in its message,
    and [simulateKeybind] throws the error of that name, after closing the
    window only. Whatever the bridge throws at the script of [pingDevice]
    is caught: the action returns, and its last event is the failure
    notification with the message of the thrown [Error], or with Unknown
    error occurred for any other value. *)
Theorem unsupported_key_and_bridge_failure :
  (forall (bridge : string -> option thrown) (deviceName : string) (w : world),
      let k := key (parseHotkey (storedKeybind w)) in
      startsWith (toLowerCase k) "f" = true ->
      assoc (toLowerCase k) keycodeMap = None ->
      fst (pingDevice bridge deviceName w) = Returned tt
      /\ trace (pingDevice bridge deviceName) w
         = [ GetItem "siriKeybind"; GetItem "siriDelay";
             ShowToast Failure "Unsupported function key"
               (Some (k ++ " is not supported. Only f13-f20 are supported.")) ])
  /\ (forall (bridge : string -> option thrown) (s : string) (w : world),
         let k := key (parseHotkey s) in
         startsWith (toLowerCase k) "f" = true ->
         assoc (toLowerCase k) keycodeMap = None ->
         simulateKeybind bridge s w
         = (Threw (ErrorObject ("Unsupported function key: " ++ k
                                ++ ". Only f13-f20 are supported.")),
            after w [CloseMainWindow]))
  /\ (forall (bridge : string -> option thrown) (deviceName : string) (w : world)
             (script : string) (error : thrown),
         RunAppleScript script ∈ trace (pingDevice bridge deviceName) w ->
         bridge script = Some error ->
         fst (pingDevice bridge deviceName w) = Returned tt
         /\ list.last (trace (pingDevice bridge deviceName) w)
            = Some (ShowToast Failure "Failed to ping device"
                      (Some (failureMessage error))))
  /\ (forall message : string, failureMessage (ErrorObject message) = message)
  /\ failureMessage OtherValue = "Unknown error occurred".
Proof.
  split; [| split; [| split; [| split]]].
  - intros bridge deviceName w k Hf Hnone.
    rewrite pingDevice_trace, pingDevice_run. fold k.
    by rewrite (unsupported_f_prefixed k Hf Hnone).
  - intros bridge s w k Hf Hnone.
    apply simulateKeybind_refused, unsupported_f_prefixed; done.
  - intros bridge deviceName w script error Hin Hbridge.
    rewrite pingDevice_run. split; [reflexivity |].
    rewrite pingDevice_trace in *.
    destruct (unsupported (key (parseHotkey (storedKeybind w)))).
    + unfold refusedTrace in Hin. elem_cases Hin; discriminate.
    + unfold pingTrace in *. elem_cases Hin; try discriminate.
      * injection Hin as ->. by rewrite Hbridge.
      * destruct (bridge (sentScript w deviceName)); discriminate.
  - reflexivity.
  - reflexivity.
Qed.

Lemma unsupported_key_and_bridge_failure_witness :
  (let w := {| storage := {["siriKeybind" := "cmd+F1"]}; events := [] |} in
   let k := key (parseHotkey (storedKeybind w)) in
   startsWith (toLowerCase k) "f" = true
   /\ assoc (toLowerCase k) keycodeMap = None
   /\ fst (pingDevice (fun _ => None) "iPhone" w) = Returned tt
   /\ trace (pingDevice (fun _ => None) "iPhone") w
      = [ GetItem "siriKeybind"; GetItem "siriDelay";
          ShowToast Failure "Unsupported function key"
            (Some "F1 is not supported. Only f13-f20 are supported.") ])
  /\ (let bridge := fun _ : string => Some (ErrorObject "Not authorized to send Apple events.") in
      let script := sentScript initial "iPhone" in
      RunAppleScript script ∈ trace (pingDevice bridge "iPhone") initial
      /\ bridge script = Some (ErrorObject "Not authorized to send Apple events.")
      /\ fst (pingDevice bridge "iPhone" initial) = Returned tt
      /\ list.last (trace (pingDevice bridge "iPhone") initial)
         = Some (ShowToast Failure "Failed to ping device"
                   (Some "Not authorized to send Apple events."))).
Proof.
  split.
  - intros w k.
    exact (conj eq_refl (conj eq_refl
      (proj1 unsupported_key_and_bridge_failure (fun _ => None) "iPhone" w
         eq_refl eq_refl))).
  - intros bridge script.
    assert (RunAppleScript script ∈ trace (pingDevice bridge "iPhone") initial) as Hin.
    { rewrite pingDevice_trace.
      replace (unsupported (key (parseHotkey (storedKeybind initial)))) with false
        by reflexivity.
      unfold pingTrace. fold script. set_solver. }
    exact (conj Hin (conj eq_refl
      (proj1 (proj2 (proj2 unsupported_key_and_bridge_failure))
         bridge "iPhone" initial script _ Hin eq_refl))).
Defined.

End SimulatorFacts.

(** ** The device list *)

Module DeviceFacts.
Import Reading DeviceStore.
Local Open Scope list_scope.

Lemma run_snoc actions a : run (actions ++ [a]) = step (run actions) a.
Proof. unfold run. by rewrite fold_left_app. Qed.

Lemma added_snoc_add actions now name' icon' :
  added (actions ++ [Add now name' icon'])
  = added actions ++ [{| id := pretty now; name := name'; icon := icon' |}].
Proof. unfold added. by rewrite omap_app. Qed.

Lemma added_snoc_remove actions i : added (actions ++ [Remove i]) = added actions.
Proof. unfold added. rewrite omap_app. simpl. by rewrite app_nil_r. Qed.

Lemma clock_snoc_add actions now name' icon' :
  clock (actions ++ [Add now name' icon']) = clock actions ++ [now].
Proof. unfold clock. by rewrite omap_app. Qed.

Lemma clock_snoc_remove actions i : clock (actions ++ [Remove i]) = clock actions.
Proof. unfold clock. rewrite omap_app. simpl. by rewrite app_nil_r. Qed.

(** Adding appends, removing keeps the order: the list is always a
    subsequence of the devices in the order of their insertion. *)
Lemma run_insertion_order actions : run actions `sublist_of` added actions.
Proof.
  induction actions as [|a actions IH] using rev_ind; [constructor |].
  rewrite run_snoc. destruct a as [now name' icon' | i]; simpl.
  - rewrite added_snoc_add. unfold addDevice. by apply sublist_app.
  - rewrite added_snoc_remove. unfold removeDevice.
    etrans; [apply sublist_filter | done].
Qed.

(** Every id in the list is the text of a clock reading. *)
Lemma run_ids actions d :
  d ∈ run actions -> exists now, now ∈ clock actions /\ id d = pretty now.
Proof.
  intros Hd. apply (sublist_subseteq _ _ (run_insertion_order actions)) in Hd.
  unfold added in Hd. apply list_elem_of_omap in Hd as (a & Ha & Hsome).
  destruct a as [now name' icon' | i]; [| done].
  injection Hsome as <-. exists now. split; [| done].
  unfold clock. apply list_elem_of_omap. by exists (Add now name' icon').
Qed.

Lemma run_ids_unique actions :
  NoDup (clock actions) -> NoDup (id <$> run actions).
Proof.
  induction actions as [|a actions IH] using rev_ind; [constructor |].
  rewrite run_snoc. destruct a as [now name' icon' | i]; simpl.
  - rewrite clock_snoc_add. intros (Hclock & Hfresh & _)%NoDup_app.
    unfold addDevice. rewrite fmap_app. apply NoDup_app.
    split; [by apply IH |]. split; [| apply NoDup_singleton].
    intros x Hx Hnew. apply list_elem_of_singleton in Hnew as ->.
    apply list_elem_of_fmap in Hx as (d & Hid & Hd).
    apply run_ids in Hd as (now' & Hnow' & Hid').
    simpl in Hid. rewrite Hid' in Hid. apply (inj pretty) in Hid as ->.
    apply (Hfresh now' Hnow'). by apply list_elem_of_singleton.
  - rewrite clock_snoc_remove. intros Hclock.
    apply (sublist_NoDup _ (id <$> run actions)); [by apply IH |].
    unfold removeDevice. apply fmap_sublist, sublist_filter.
Qed.

(** One action keeps the ids distinct exactly when it does not collide. *)
Lemma step_ids_unique devices a :
  NoDup (id <$> devices) ->
  NoDup (id <$> step devices a) <-> ~ collides devices a.
Proof.
  intros Hdevices. destruct a as [now name' icon' | i]; simpl.
  - unfold addDevice. rewrite fmap_app. simpl. split.
    + intros (_ & Hfresh & _)%NoDup_app Hin.
      apply (Hfresh _ Hin). by apply list_elem_of_singleton.
    + intros Hnot. apply NoDup_app. split; [done |]. split; [| apply NoDup_singleton].
      intros x Hx Hnew. apply list_elem_of_singleton in Hnew as ->. done.
  - split; [tauto |]. intros _.
    apply (sublist_NoDup _ (id <$> devices)); [done |].
    unfold removeDevice. apply fmap_sublist, sublist_filter.
Qed.

Lemma freshFrom_prefixes actions devices :
  NoDup (id <$> devices) ->
  freshFrom devices actions
  <-> forall n : nat, NoDup (id <$> fold_left step (take n actions) devices).
Proof.
  revert devices. induction actions as [|a actions IH]; intros devices Hdevices.
  - split; [| done]. intros _ n. by rewrite take_nil.
  - cbn [freshFrom]. split.
    + intros [Hc Hf] [|n]; [done |]. cbn [take fold_left].
      apply (IH (step devices a)); [by apply step_ids_unique | done].
    + intros H. pose proof (H 1) as H1. cbn [take fold_left] in H1.
      rewrite take_0 in H1. cbn [fold_left] in H1.
      split; [by apply (step_ids_unique devices a) |].
      apply IH; [done |]. intros n. exact (H (S n)).
Qed.

Lemma clock_take n actions : NoDup (clock actions) -> NoDup (clock (take n actions)).
Proof.
  rewrite <- (take_drop n actions) at 1. unfold clock. rewrite omap_app.
  by intros (H & _)%NoDup_app.
Qed.

(** C4, as the code has it. The devices of every list reached from the
    empty list by additions and removals stand in the order of their
    insertion. Their ids are pairwise distinct in every list on the way
    exactly when no addition reads a clock value whose text is the id of a
    device then in the list; this is so, in particular, when no two
    additions read the same clock value. *)
Theorem device_ids_unique (actions : list action) :
  run actions `sublist_of` added actions
  /\ (fresh actions <-> forall n : nat, NoDup (id <$> run (take n actions)))
  /\ (fresh actions -> NoDup (id <$> run actions))
  /\ (NoDup (clock actions) -> fresh actions).
Proof.
  assert (fresh actions <-> forall n : nat, NoDup (id <$> run (take n actions))) as Hiff
    by (apply freshFrom_prefixes; constructor).
  split; [apply run_insertion_order |]. split; [exact Hiff |]. split.
  - intros Hfresh. rewrite <- (firstn_all actions) at 1. by apply Hiff.
  - intros Hclock. apply Hiff. intros n. by apply run_ids_unique, clock_take.
Qed.

Lemma device_ids_unique_witness :
  let actions := [ Add 5 "iPhone" "Iphone.png"; Remove "5"; Add 5 "AirPods" "Airpods.png" ] in
  fresh actions
  /\ ~ NoDup (clock actions)
  /\ NoDup (id <$> run actions)
  /\ run actions `sublist_of` added actions.
Proof.
  intros actions.
  assert (fresh actions) as Hfresh.
  { unfold fresh, actions. cbn [freshFrom collides].
    split; [intros H; by apply elem_of_nil in H |].
    split; [tauto |].
    split; [| done]. intros H. vm_compute in H. by apply elem_of_nil in H. }
  split; [exact Hfresh |]. split.
  { intros H. apply (bool_decide_pack (NoDup (clock actions))) in H.
    vm_compute in H. exact H. }
  split; [exact (proj1 (proj2 (proj2 (device_ids_unique actions))) Hfresh) |].
  exact (proj1 (device_ids_unique actions)).
Defined.

(** Two additions within one clock tick give two devices with one id. *)
Lemma same_tick_same_id :
  let devices :=
    run [ Add 1700000000000 "iPhone" "Iphone.png";
          Add 1700000000000 "AirPods" "Airpods.png" ] in
  id <$> devices = ["1700000000000"; "1700000000000"] /\ ~ NoDup (id <$> devices).
Proof.
  intros devices. split; [reflexivity |].
  intros H. apply (bool_decide_pack (NoDup (id <$> devices))) in H.
  vm_compute in H. exact H.
Qed.

End DeviceFacts.

(** * Further properties *)

(** ** The codec *)

Module CodecFacts.
Import JsString JsObject JsNumber KeybindCodec Host KeystrokeSimulator.
Import Vocabulary Reading JsStringFacts ValidationFacts KeybindFacts.

(** *** Escaping *)

Lemma replaceClass_read before s :
  readLiteral (replaceClass is_escaped (String backslash "$&") before s) = Some s.
Proof.
  revert before. induction s as [|c s IH]; intros before; [done |].
  cbn [replaceClass]. destruct (is_escaped c) eqn:Hc.
  - change (getSubstitution (str c) before s (String backslash "$&"))
      with (String backslash (str c ++ EmptyString)).
    simpl. by rewrite IH.
  - unfold is_escaped in Hc. apply orb_false_iff in Hc as [Hb Hq].
    simpl. by rewrite Hb, Hq, IH.
Qed.

(** X1. Read as the inside of a string literal, the escaped text never
    ends the literal early and stands for the text that was escaped; so
    two different texts are never escaped to the same one. *)
Theorem sanitizeForAppleScript_reads_back :
  (forall s : string, readLiteral (sanitizeForAppleScript s) = Some s)
  /\ (forall s t : string,
         sanitizeForAppleScript s = sanitizeForAppleScript t -> s = t).
Proof.
  split; [intros s; apply replaceClass_read |].
  intros s t Heq.
  pose proof (replaceClass_read EmptyString s) as Hs.
  pose proof (replaceClass_read EmptyString t) as Ht.
  unfold sanitizeForAppleScript in Heq. rewrite Heq in Hs. congruence.
Qed.

Lemma replaceClass_unchanged cls template before s :
  testClass cls s = false -> replaceClass cls template before s = s.
Proof.
  revert before. induction s as [|c s IH]; intros before; [done |].
  cbn [testClass replaceClass]. intros [Hc Hs]%orb_false_iff.
  by rewrite Hc, IH.
Qed.

Lemma is_forbidden_escaped c : is_forbidden c = false -> is_escaped c = false.
Proof.
  unfold is_forbidden, is_escaped.
  intros [[Hq _]%orb_false_iff Hb]%orb_false_iff. by rewrite Hq, Hb.
Qed.

Lemma testClass_weaken (cls cls' : ascii -> bool) s :
  (forall c, cls c = false -> cls' c = false) ->
  testClass cls s = false -> testClass cls' s = false.
Proof.
  intros Hcls. induction s as [|c s IH]; [done |].
  cbn [testClass]. intros [Hc Hs]%orb_false_iff.
  by rewrite (Hcls c Hc), IH.
Qed.

Lemma validateDeviceName_None name :
  validateDeviceName name = None ->
  truthy (trim name) = true /\ String.length name <= 50
  /\ testClass is_forbidden name = false.
Proof.
  unfold validateDeviceName.
  destruct (truthy (trim name)); [| done].
  destruct (Nat.ltb_spec 50 (String.length name)); [done |].
  destruct (testClass is_forbidden name); [done |].
  intros _. split; [done |]. split; [lia | done].
Qed.

Lemma sanitize_valid_name name :
  validateDeviceName name = None -> sanitizeForAppleScript name = name.
Proof.
  intros (_ & _ & Hclass)%validateDeviceName_None.
  apply replaceClass_unchanged.
  by apply (testClass_weaken is_forbidden is_escaped _ is_forbidden_escaped).
Qed.

(** X2. A name the add-device form accepts needs no escaping: it goes into
    the script of [pingDevice] as it was typed, between the words ping my
    and the closing quote. *)
Theorem valid_name_sent_verbatim (name keyCommand : string) (delay : number) :
  validateDeviceName name = None ->
  sanitizeForAppleScript name = name
  /\ exists before after_ : string,
      pingScript keyCommand delay name
      = before ++ "keystroke " ++ str dquote ++ "ping my " ++ name ++ str dquote ++ after_.
Proof.
  intros Hvalid. split; [by apply sanitize_valid_name |].
  unfold pingScript. rewrite (sanitize_valid_name name Hvalid).
  eexists (nl ++ "    tell application " ++ str dquote ++ "System Events" ++ str dquote ++ nl
              ++ "      " ++ keyCommand ++ nl
              ++ "    end tell" ++ nl
              ++ "    delay " ++ toString delay ++ nl
              ++ "    tell application " ++ str dquote ++ "System Events" ++ str dquote ++ nl
              ++ "      "), _.
  rewrite !JsStringFacts.app_assoc. reflexivity.
Qed.

Lemma valid_name_sent_verbatim_witness :
  validateDeviceName "Sophie's iPhone" = None
  /\ sanitizeForAppleScript "Sophie's iPhone" = "Sophie's iPhone".
Proof.
  exact (conj eq_refl
    (proj1 (valid_name_sent_verbatim "Sophie's iPhone" "key code 105" (of_Z 1) eq_refl))).
Defined.

(** *** Tokens *)

Lemma split_length sep s : length (split sep s) = S (occurrences sep s).
Proof.
  unfold occurrences. induction s as [|c s IH]; [done |].
  cbn [split chars list_ascii_of_string count_occ].
  destruct (ascii_dec c sep) as [-> | Hne].
  - destruct (ascii_dec sep sep); [| done]. simpl. by rewrite IH.
  - destruct (ascii_dec c sep); [done |].
    pose proof (split_nonempty sep s) as Hs.
    destruct (split sep s) as [|h t]; [done |]. simpl in *. done.
Qed.

Lemma split_no_separator sep s : ~ In sep (chars s) -> split sep s = [s].
Proof.
  induction s as [|c s IH]; [done |]. simpl. intros Hnot.
  destruct (ascii_dec c sep) as [-> | Hne]; [tauto |].
  rewrite IH by tauto. done.
Qed.

(** X3. [parseHotkey] loses nothing of its input: the modifier tokens and
    the key, joined by plus signs, are the string again; the key holds no
    plus sign; there is one modifier for each plus sign of the string, each
    ending in the word down; and a string without a plus sign is a key
    without modifiers. *)
Theorem parseHotkey_round_trip (s : string) :
  join "+" (modifierTokens s ++ [key (parseHotkey s)])%list = s
  /\ ~ contains "+" (key (parseHotkey s))
  /\ length (modifiers (parseHotkey s)) = occurrences "+" s
  /\ map (fun m => modifierName m ++ " down") (modifierTokens s)
     = modifiers (parseHotkey s)
  /\ (occurrences "+" s = 0 -> parseHotkey s = {| key := s; modifiers := [] |}).
Proof.
  split; [| split; [| split; [| split]]].
  - change (key (parseHotkey s)) with (finalToken s).
    rewrite <- tokens_split. apply (join_split "+" s).
  - change (key (parseHotkey s)) with (finalToken s).
    pose proof (split_no_sep "+" s) as Hall. fold (tokens s) in Hall.
    rewrite tokens_split in Hall. apply Forall_app in Hall as [_ Hlast].
    by inversion Hlast.
  - unfold parseHotkey. cbn [modifiers]. rewrite length_map.
    fold (tokens s) (modifierTokens s).
    pose proof (modifierTokens_length s) as Hlen.
    unfold tokens in Hlen. rewrite split_length in Hlen. lia.
  - reflexivity.
  - intros Hnone. unfold parseHotkey.
    rewrite (split_no_separator "+" s); [done |].
    unfold occurrences in Hnone. by apply (count_occ_not_In ascii_dec).
Qed.

(** *** Lower case *)

Lemma lower_char_plus c : lower_char c = "+"%char <-> c = "+"%char.
Proof.
  split; [| by intros ->].
  destruct c as [[] [] [] [] [] [] [] []]; vm_compute; congruence.
Qed.

Lemma split_toLowerCase s :
  split "+" (toLowerCase s) = map toLowerCase (split "+" s).
Proof.
  induction s as [|c s IH]; [done |].
  cbn [toLowerCase split].
  destruct (ascii_dec c "+") as [-> | Hne].
  - change (lower_char "+") with "+"%char.
    destruct (ascii_dec "+" "+"); [| done]. by rewrite IH.
  - destruct (ascii_dec (lower_char c) "+") as [Heq | _].
    { apply (proj1 (lower_char_plus c)) in Heq. contradiction. }
    rewrite IH. pose proof (split_nonempty "+" s) as Hs.
    by destruct (split "+" s).
Qed.

Lemma map_fixed {A : Type} (f : A -> A) (l : list A) :
  map f l = l -> Forall (fun x => f x = x) l.
Proof.
  induction l as [|x l IH]; [constructor |].
  simpl. intros [= Hx Hl]. constructor; auto.
Qed.

(** The tokens of a string in lower case are in lower case. *)
Lemma tokens_lower_case s :
  toLowerCase s = s -> Forall (fun t => toLowerCase t = t) (tokens s).
Proof.
  intros Hs. apply map_fixed. unfold tokens.
  by rewrite <- split_toLowerCase, Hs.
Qed.

(** X4. An accepted keybind has at least one modifier, and when it is
    written in lower case every modifier [parseHotkey] gives is one of
    command down, control down, option down and shift down. *)
Theorem accepted_lower_case_keybind (s : string) :
  validateKeybind s = None ->
  modifiers (parseHotkey s) <> []
  /\ (toLowerCase s = s ->
      Forall (fun m => m ∈ canonicalModifiers) (modifiers (parseHotkey s))).
Proof.
  intros (Hlen & Hmods & _)%validateKeybind_None. split.
  - unfold parseHotkey. cbn [modifiers]. fold (tokens s) (modifierTokens s).
    pose proof (modifierTokens_length s).
    destruct (modifierTokens s); [simpl in *; lia | done].
  - intros Hlower. apply tokens_lower_case in Hlower.
    rewrite tokens_split in Hlower. apply Forall_app in Hlower as [Hlower _].
    unfold parseHotkey. cbn [modifiers]. fold (tokens s) (modifierTokens s).
    apply Forall_forall. intros m Hm.
    apply list_elem_of_In, in_map_iff in Hm as (t & <- & Ht).
    apply list_elem_of_In in Ht.
    rewrite Forall_forall in Hmods, Hlower.
    specialize (Hmods t Ht). rewrite (Hlower t Ht) in Hmods.
    unfold validModifiers in Hmods. unfold canonicalModifiers.
    elem_cases Hmods; vm_compute; set_solver.
Qed.

Lemma accepted_lower_case_keybind_witness :
  validateKeybind "ctrl+opt+f19" = None
  /\ modifiers (parseHotkey "ctrl+opt+f19") <> []
  /\ (toLowerCase "ctrl+opt+f19" = "ctrl+opt+f19" ->
      Forall (fun m => m ∈ canonicalModifiers) (modifiers (parseHotkey "ctrl+opt+f19"))).
Proof.
  exact (conj eq_refl (accepted_lower_case_keybind "ctrl+opt+f19" eq_refl)).
Defined.

(** X5. [validateKeybind] accepts a string exactly when it has two tokens
    or more, every modifier token is one of cmd, ctrl, opt and shift once
    put in lower case, and the final token, put in lower case, is one of
    f13..f20 or one character long; an accepted string is never empty. *)
Theorem validateKeybind_accepts_exactly (s : string) :
  (validateKeybind s = None
   <-> 2 <= length (tokens s)
       /\ Forall (fun m => toLowerCase m ∈ validModifiers) (modifierTokens s)
       /\ (toLowerCase (finalToken s) ∈ supportedKeys
           \/ String.length (toLowerCase (finalToken s)) = 1))
  /\ validateKeybind EmptyString <> None.
Proof.
  split; [| done]. split.
  - intros (Hlen & Hmods & Hkey)%validateKeybind_None.
    rewrite length_toLowerCase. done.
  - intros (Hlen & Hmods & Hkey). by apply validateKeybind_accepts.
Qed.

End CodecFacts.

(** ** The actions *)

Module FlowFacts.
Import JsString JsObject JsNumber KeybindCodec Host KeystrokeSimulator.
Import Vocabulary Reading JsStringFacts NumberFacts ValidationFacts KeybindFacts.
Import HostFacts SimulatorFacts.
Local Open Scope list_scope.

Lemma setItem_after k v w :
  setItem k v w = (Returned tt, after (withItem k v w) [SetItem k v]).
Proof. reflexivity. Qed.

Lemma withItem_after k v w evs :
  withItem k v (after w evs) = after (withItem k v w) evs.
Proof. reflexivity. Qed.

Lemma scripts_app evs evs' : scripts (evs ++ evs') = scripts evs ++ scripts evs'.
Proof. unfold scripts. apply omap_app. Qed.

Lemma waited_app evs evs' : waited (evs ++ evs') = (waited evs + waited evs')%N.
Proof.
  induction evs as [|e evs IH]; simpl; [done |].
  rewrite IH. destruct e; lia.
Qed.

(** *** simulateKeybind *)

Lemma countdown_exact n w : countdown n w = (Returned tt, after w (countdownTrace n)).
Proof.
  revert w. induction n as [|i IH]; intros w.
  - simpl. unfold Host.ret. by rewrite after_nil.
  - cbn [countdown countdownTrace]. unfold mbind, task_bind.
    rewrite (bind_returned _ _ _ _ _ (emit_after _ w)).
    rewrite (bind_returned _ _ _ _ _ (emit_after _ _)).
    rewrite IH, !after_after. reflexivity.
Qed.

Lemma countdownTrace_waited n : waited (countdownTrace n) = (1000 * N.of_nat n)%N.
Proof. induction n as [|i IH]; [done |]. cbn [countdownTrace waited foldr]. fold (waited (countdownTrace i)). lia. Qed.

Lemma countdownTrace_scripts n : scripts (countdownTrace n) = [].
Proof. induction n as [|i IH]; [done |]. exact IH. Qed.

Lemma simulateKeybind_exact bridge s w :
  unsupported (key (parseHotkey s)) = false ->
  let script := simulateScript (keyCommand (key (parseHotkey s)) (modifiers (parseHotkey s))) in
  simulateKeybind bridge s w
  = (fst (simulateEnd (bridge script)),
     after w ([CloseMainWindow; ShowToast Animated "Simulating in 10 seconds..." None]
              ++ countdownTrace 10
              ++ [HideToast; RunAppleScript script]
              ++ snd (simulateEnd (bridge script)))).
Proof.
  intros Hu script. unfold simulateKeybind, mbind, task_bind, closeMainWindow, showToast.
  rewrite (bind_returned _ _ _ _ _ (emit_after _ w)), Hu.
  rewrite (bind_returned _ _ _ _ _ (emit_after _ _)), after_after.
  rewrite (bind_returned _ _ _ _ _ (countdown_exact 10 _)), after_after.
  rewrite (bind_returned _ _ _ _ _ (emit_after _ _)), after_after.
  unfold bind. rewrite runAppleScript_after, after_after. fold script.
  destruct (bridge script) as [e |]; cbn [simulateEnd fst snd].
  - by rewrite <- ?(assoc_L (++)), ?app_nil_r.
  - rewrite emit_after, after_after. by rewrite <- ?(assoc_L (++)).
Qed.

Lemma simulateKeybind_storage bridge s w :
  storage (snd (simulateKeybind bridge s w)) = storage w.
Proof.
  destruct (unsupported (key (parseHotkey s))) eqn:Hu.
  - by rewrite simulateKeybind_refused.
  - by rewrite simulateKeybind_exact.
Qed.

(** X6. A key that resolves makes [simulateKeybind] close the window,
    announce ten seconds, count them down one title and one second at a
    time, hide the notification and only then send its one script. When
    the bridge accepts the script the action ends with the success
    notification; when the bridge throws, nothing follows the script and
    the thrown value leaves the action uncaught. *)
Theorem simulateKeybind_countdown
        (bridge : string -> option thrown) (s : string) (w : world) :
  unsupported (key (parseHotkey s)) = false ->
  let script :=
    simulateScript (keyCommand (key (parseHotkey s)) (modifiers (parseHotkey s))) in
  let upToScript :=
    [CloseMainWindow; ShowToast Animated "Simulating in 10 seconds..." None]
    ++ countdownTrace 10 ++ [HideToast; RunAppleScript script] in
  (bridge script = None ->
   simulateKeybind bridge s w
   = (Returned tt, after w (upToScript ++ [ShowToast Success "Keybind simulated" None])))
  /\ (forall e : thrown,
         bridge script = Some e ->
         simulateKeybind bridge s w = (Threw e, after w upToScript))
  /\ countdownTrace 10
     = flat_map (fun left_ => [ SetToastTitle ("Simulating in " ++ left_ ++ " seconds...")%string;
                                SetTimeout 1000 ])
                ["10"; "9"; "8"; "7"; "6"; "5"; "4"; "3"; "2"; "1"]%string
  /\ waited upToScript = 10000%N
  /\ scripts upToScript = [script].
Proof.
  intros Hu script upToScript. split; [| split; [| split; [| split]]].
  - intros Hb. rewrite (simulateKeybind_exact bridge s w Hu). fold script.
    rewrite Hb. cbn [simulateEnd fst snd]. unfold upToScript.
    cbn [app]. rewrite <- ?(assoc_L (++)). reflexivity.
  - intros e Hb. rewrite (simulateKeybind_exact bridge s w Hu). fold script.
    rewrite Hb. cbn [simulateEnd fst snd]. unfold upToScript.
    cbn [app]. rewrite <- ?(assoc_L (++)), ?app_nil_r. reflexivity.
  - by vm_compute.
  - unfold upToScript. rewrite !waited_app, countdownTrace_waited. reflexivity.
  - unfold upToScript. rewrite !scripts_app, countdownTrace_scripts. reflexivity.
Qed.

Lemma simulateKeybind_countdown_witness :
  let bridge := fun _ : string => Some OtherValue in
  unsupported (key (parseHotkey "cmd+f13")) = false
  /\ fst (simulateKeybind bridge "cmd+f13" initial) = Threw OtherValue.
Proof.
  intros bridge. split; [reflexivity |].
  rewrite (proj1 (proj2 (simulateKeybind_countdown bridge "cmd+f13" initial eq_refl))
             OtherValue eq_refl).
  reflexivity.
Defined.

(** *** handleSimulate *)

Lemma handleSimulate_unfold bridge keybind delay w :
  handleSimulate bridge keybind delay w
  = simulateKeybind bridge keybind
      (after (withItem "siriDelay" delay (withItem "siriKeybind" keybind w))
             [SetItem "siriKeybind" keybind; SetItem "siriDelay" delay]).
Proof.
  unfold handleSimulate, mbind, task_bind.
  rewrite (bind_returned _ _ _ _ _ (setItem_after _ _ w)).
  rewrite (bind_returned _ _ _ _ _ (setItem_after _ _ _)).
  by rewrite withItem_after, after_after.
Qed.

Lemma handleSimulate_storage bridge keybind delay w :
  storage (snd (handleSimulate bridge keybind delay w))
  = <["siriDelay" := delay]> (<["siriKeybind" := keybind]> (storage w)).
Proof. by rewrite handleSimulate_unfold, simulateKeybind_storage. Qed.

Lemma lookup_stored_keybind (keybind delay : string) (st : gmap string string) :
  (<["siriDelay" := delay]> (<["siriKeybind" := keybind]> st)) !! "siriKeybind"
  = Some keybind.
Proof. rewrite lookup_insert_ne by done. apply lookup_insert_eq. Qed.

Lemma lookup_stored_delay (keybind delay : string) (st : gmap string string) :
  (<["siriDelay" := delay]> (<["siriKeybind" := keybind]> st)) !! "siriDelay"
  = Some delay.
Proof. apply lookup_insert_eq. Qed.

Lemma orDefault_truthy s d : truthy s = true -> orDefault (Some s) d = s.
Proof. simpl. by intros ->. Qed.

(** X7. [handleSimulate] stores both fields as typed, whatever the
    validators would say of them, before it closes the window; they stay
    stored when the keybind is then refused or the bridge throws, and a
    later [pingDevice] reads the typed keybind back. *)
Theorem handleSimulate_stores_unvalidated
        (bridge : string -> option thrown) (keybind delay : string) (w : world) :
  storage (snd (handleSimulate bridge keybind delay w))
  = <["siriDelay" := delay]> (<["siriKeybind" := keybind]> (storage w))
  /\ take 3 (trace (handleSimulate bridge keybind delay) w)
     = [SetItem "siriKeybind" keybind; SetItem "siriDelay" delay; CloseMainWindow]
  /\ (keybind <> EmptyString ->
      storedKeybind (snd (handleSimulate bridge keybind delay w)) = keybind)
  /\ (unsupported (key (parseHotkey keybind)) = true ->
      exists e, fst (handleSimulate bridge keybind delay w) = Threw e).
Proof.
  split; [apply handleSimulate_storage |]. split; [| split].
  - unfold trace. rewrite handleSimulate_unfold.
    destruct (unsupported (key (parseHotkey keybind))) eqn:Hu.
    + rewrite simulateKeybind_refused by done.
      cbn [snd after events withItem]. by rewrite <- (assoc_L (++)), drop_app_length.
    + rewrite simulateKeybind_exact by done.
      cbn [snd after events withItem]. by rewrite <- (assoc_L (++)), drop_app_length.
  - intros Hne. unfold storedKeybind.
    rewrite handleSimulate_storage, lookup_stored_keybind.
    apply orDefault_truthy. by destruct keybind.
  - intros Hu. rewrite handleSimulate_unfold, simulateKeybind_refused by done.
    by eexists.
Qed.

(** *** pingDevice *)

(** X8. Whatever the bridge answers, [pingDevice] writes nothing to the
    store: it starts by reading the two settings, sends at most one
    script, and neither closes the window nor waits on a timer. *)
Theorem pingDevice_reads_only
        (bridge : string -> option thrown) (deviceName : string) (w : world) :
  storage (snd (pingDevice bridge deviceName w)) = storage w
  /\ (forall (k v : string), SetItem k v ∉ trace (pingDevice bridge deviceName) w)
  /\ length (scripts (trace (pingDevice bridge deviceName) w)) <= 1
  /\ waited (trace (pingDevice bridge deviceName) w) = 0%N
  /\ (CloseMainWindow ∉ trace (pingDevice bridge deviceName) w)
  /\ take 2 (trace (pingDevice bridge deviceName) w)
     = [GetItem "siriKeybind"; GetItem "siriDelay"].
Proof.
  rewrite pingDevice_trace, pingDevice_run.
  split; [done |].
  destruct (unsupported (key (parseHotkey (storedKeybind w)))).
  - unfold refusedTrace.
    split; [intros k v H; elem_cases H; discriminate |].
    split; [simpl; lia |]. split; [done |]. split; [| done].
    intros H. elem_cases H; discriminate.
  - unfold pingTrace.
    destruct (bridge (sentScript w deviceName));
      (split; [intros k v H; elem_cases H; discriminate |];
       split; [simpl; lia |]; split; [done |]; split; [| done];
       intros H; elem_cases H; discriminate).
Qed.

Lemma orDefault_unset o d : unset o -> orDefault o d = d.
Proof. by intros [-> | ->]. Qed.

(** X9. With no keybind and no delay stored, or with empty ones,
    [pingDevice] falls back to cmd+f13 and one second: it sends key code
    105 with the command modifier, then delay 1, then the ping text. *)
Theorem pingDevice_defaults
        (bridge : string -> option thrown) (deviceName : string) (w : world) :
  unset (storage w !! "siriKeybind") ->
  unset (storage w !! "siriDelay") ->
  scripts (trace (pingDevice bridge deviceName) w)
  = [ (nl ++ "    tell application " ++ str dquote ++ "System Events" ++ str dquote ++ nl
          ++ "      key code 105 using {command down}" ++ nl
          ++ "    end tell" ++ nl
          ++ "    delay 1" ++ nl
          ++ "    tell application " ++ str dquote ++ "System Events" ++ str dquote ++ nl
          ++ "      keystroke " ++ str dquote ++ "ping my "
          ++ sanitizeForAppleScript deviceName ++ str dquote ++ nl
          ++ "      delay 0.3" ++ nl
          ++ "      key code 36" ++ nl
          ++ "    end tell" ++ nl
          ++ "  ")%string ].
Proof.
  intros Hk Hd. rewrite pingDevice_trace.
  unfold pingTrace, sentScript, storedKeybind, storedDelay.
  rewrite (orDefault_unset _ _ Hk), (orDefault_unset _ _ Hd).
  replace (unsupported (key (parseHotkey "cmd+f13"))) with false by reflexivity.
  replace (keyCommand (key (parseHotkey "cmd+f13")) (modifiers (parseHotkey "cmd+f13")))
    with "key code 105 using {command down}"%string by (by vm_compute).
  unfold pingScript.
  replace (toString (parseFloat "1")) with "1"%string by (by vm_compute).
  unfold scripts. by destruct (bridge _).
Qed.

Lemma pingDevice_defaults_witness :
  let w := {| storage := {["siriKeybind" := EmptyString]}; events := [] |} in
  unset (storage w !! "siriKeybind")
  /\ unset (storage w !! "siriDelay")
  /\ length (scripts (trace (pingDevice (fun _ => None) "iPhone") w)) = 1.
Proof.
  intros w.
  assert (unset (storage w !! "siriKeybind")) as Hk by (right; reflexivity).
  assert (unset (storage w !! "siriDelay")) as Hd by (left; reflexivity).
  refine (conj Hk (conj Hd _)).
  rewrite (pingDevice_defaults (fun _ => None) "iPhone" w Hk Hd). reflexivity.
Defined.

(** *** The settings form *)

Lemma firstError_None keybind delay :
  firstError keybind delay = None
  <-> validateKeybind keybind = None /\ validateDelay delay = None.
Proof.
  unfold firstError. destruct (validateKeybind keybind); [| tauto].
  split; [done | by intros [? _]].
Qed.

(** The world once accepted settings are stored and announced. *)
Lemma handleSubmit_refused {A : Type} (onComplete : task A) keybind delay w message :
  firstError keybind delay = Some message ->
  Onboarding.handleSubmit onComplete keybind delay w
  = (Returned tt, after w [ShowToast Failure "Invalid input" (Some message)]).
Proof.
  unfold firstError, Onboarding.handleSubmit.
  destruct (validateKeybind keybind) as [m |], (validateDelay delay) as [m' |];
    intros [= <-]; reflexivity.
Qed.

Lemma handleSubmit_accepted {A : Type} (onComplete : task A) keybind delay w :
  firstError keybind delay = None ->
  Onboarding.handleSubmit onComplete keybind delay w
  = (match fst (onComplete (savedWorld keybind delay w)) with
     | Returned _ => Returned tt
     | Threw e => Threw e
     end,
     snd (onComplete (savedWorld keybind delay w))).
Proof.
  intros [Hk Hd]%firstError_None. unfold Onboarding.handleSubmit. rewrite Hk, Hd.
  unfold mbind, task_bind, showToast.
  rewrite (bind_returned _ _ _ _ _ (setItem_after _ _ w)).
  rewrite (bind_returned _ _ _ _ _ (setItem_after _ _ _)).
  rewrite (bind_returned _ _ _ _ _ (emit_after _ _)).
  rewrite withItem_after, !after_after. unfold bind.
  match goal with
  | |- context [onComplete ?w0] => change w0 with (savedWorld keybind delay w)
  end. by destruct (onComplete (savedWorld keybind delay w)) as [[a | e] w'].
Qed.

(** X10. [handleSubmit] stores the two settings, announces it and runs
    [onComplete], in this order, exactly when both validators accept. When
    one refuses, nothing is stored, [onComplete] is not run, and the one
    event is the failure notification, with the keybind's error when there
    is one and the delay's otherwise. *)
Theorem handleSubmit_gate {A : Type}
        (onComplete : task A) (keybind delay : string) (w : world) :
  (forall message : string,
      firstError keybind delay = Some message ->
      Onboarding.handleSubmit onComplete keybind delay w
      = (Returned tt, after w [ShowToast Failure "Invalid input" (Some message)]))
  /\ (firstError keybind delay = None ->
      Onboarding.handleSubmit onComplete keybind delay w
      = (match fst (onComplete (savedWorld keybind delay w)) with
         | Returned _ => Returned tt
         | Threw e => Threw e
         end,
         snd (onComplete (savedWorld keybind delay w))))
  /\ storage (savedWorld keybind delay w)
     = <["siriDelay" := delay]> (<["siriKeybind" := keybind]> (storage w))
  /\ events (savedWorld keybind delay w)
     = events w ++ [ SetItem "siriKeybind" keybind; SetItem "siriDelay" delay;
                     ShowToast Success "Settings saved" None ]
  /\ (firstError keybind delay = None
      <-> validateKeybind keybind = None /\ validateDelay delay = None)
  /\ (forall message : string,
         validateKeybind keybind = Some message ->
         firstError keybind delay = Some message).
Proof.
  split; [intros message; apply handleSubmit_refused |].
  split; [apply handleSubmit_accepted |].
  split; [reflexivity |].
  split; [reflexivity |].
  split; [apply firstError_None |].
  intros message Hk. unfold firstError. by rewrite Hk.
Qed.

Lemma handleSubmit_gate_witness :
  firstError "cmd+f13" "abc" = Some "Delay must be a number"
  /\ Onboarding.handleSubmit Onboarding.completeOnboarding "cmd+f13" "abc" initial
     = (Returned tt,
        after initial [ShowToast Failure "Invalid input" (Some "Delay must be a number")]).
Proof.
  assert (firstError "cmd+f13" "abc" = Some "Delay must be a number") as H
    by (by vm_compute).
  exact (conj H
    (proj1 (handleSubmit_gate Onboarding.completeOnboarding "cmd+f13" "abc" initial) _ H)).
Defined.

Lemma validateDelay_None delay :
  validateDelay delay = None ->
  truthy delay = true
  /\ isNaN (parseFloat delay) = false
  /\ lt (parseFloat delay) zero = false
  /\ gt (parseFloat delay) (of_Z 10) = false.
Proof.
  unfold validateDelay.
  destruct (isNaN (parseFloat delay)) eqn:Hnan; [done |].
  destruct (lt (parseFloat delay) zero); [done |].
  destruct (gt (parseFloat delay) (of_Z 10)); [done |].
  intros _. split; [| done]. by destruct delay.
Qed.

Lemma savedWorld_settings keybind delay w :
  firstError keybind delay = None ->
  storedKeybind (savedWorld keybind delay w) = keybind
  /\ storedDelay (savedWorld keybind delay w) = parseFloat delay.
Proof.
  intros [Hk Hd]%firstError_None.
  unfold storedKeybind, storedDelay, savedWorld. cbn [storage after withItem].
  rewrite lookup_stored_keybind, lookup_stored_delay.
  apply validateKeybind_None in Hk as (Hlen & _).
  apply validateDelay_None in Hd as (Hd & _).
  by rewrite (orDefault_truthy _ _ (tokens_truthy keybind Hlen)), (orDefault_truthy _ _ Hd).
Qed.

Lemma perform_Save keybind delay w :
  firstError keybind delay = None ->
  perform w (Save keybind delay) = savedWorld keybind delay w.
Proof. intros H. unfold perform. by rewrite handleSubmit_accepted. Qed.

Lemma perform_Complete keybind delay w :
  firstError keybind delay = None ->
  perform w (Complete keybind delay)
  = after (withItem "hasOnboarded" "true" (savedWorld keybind delay w))
          [SetItem "hasOnboarded" "true"].
Proof. intros H. unfold perform. by rewrite handleSubmit_accepted. Qed.

(** X11. After a submission that was accepted, on the settings screen or
    at the end of the first run, [pingDevice] uses the keybind as it was
    typed and a delay that is a number from zero to ten: the script never
    says delay NaN, a negative delay or one above ten. *)
Theorem accepted_settings_reach_ping (keybind delay : string) (w : world) :
  firstError keybind delay = None ->
  Forall (fun w' : world =>
            storedKeybind w' = keybind
            /\ storedDelay w' = parseFloat delay
            /\ isNaN (storedDelay w') = false
            /\ lt (storedDelay w') zero = false
            /\ gt (storedDelay w') (of_Z 10) = false)
         [perform w (Save keybind delay); perform w (Complete keybind delay)].
Proof.
  intros Hok.
  destruct (savedWorld_settings keybind delay w Hok) as [Hk Hd].
  pose proof Hok as [_ Hdelay]%firstError_None.
  apply validateDelay_None in Hdelay as (_ & ? & ? & ?).
  repeat constructor.
  1-5: rewrite perform_Save by done; congruence.
  all: rewrite perform_Complete by done;
    unfold storedKeybind, storedDelay in *; cbn [storage after withItem] in *;
    rewrite !(lookup_insert_ne _ "hasOnboarded") by done; congruence.
Qed.

Lemma accepted_settings_reach_ping_witness :
  firstError "ctrl+shift+a" "0.5" = None
  /\ Forall (fun w' : world =>
               storedKeybind w' = "ctrl+shift+a"%string
               /\ storedDelay w' = parseFloat "0.5"
               /\ isNaN (storedDelay w') = false
               /\ lt (storedDelay w') zero = false
               /\ gt (storedDelay w') (of_Z 10) = false)
            [ perform initial (Save "ctrl+shift+a" "0.5");
              perform initial (Complete "ctrl+shift+a" "0.5") ].
Proof.
  assert (firstError "ctrl+shift+a" "0.5" = None) as H by (by vm_compute).
  exact (conj H (accepted_settings_reach_ping "ctrl+shift+a" "0.5" initial H)).
Defined.

(** *** The first run *)

Lemma loadOnboarded_run parse w :
  Onboarding.loadOnboarded parse w
  = (match storedDevices parse w with
     | Onboarding.SyntaxError message => Threw (ErrorObject message)
     | Onboarding.OtherJson =>
         Returned (None, bool_decide (storage w !! "hasOnboarded" = Some "true"%string))
     | Onboarding.Devices devices =>
         Returned (Some devices,
                   bool_decide (storage w !! "hasOnboarded" = Some "true"%string))
     end,
     after w [GetItem "devices"; GetItem "hasOnboarded"]).
Proof.
  unfold Onboarding.loadOnboarded, mbind, task_bind.
  rewrite (bind_returned _ _ _ _ _ (getItem_after _ w)).
  rewrite (bind_returned _ _ _ _ _ (getItem_after _ _)).
  rewrite after_after, !storage_after. fold (storedDevices parse w).
  by destruct (storedDevices parse w).
Qed.

Lemma viewAfterLoad_flag parse w :
  viewAfterLoad parse w
  = match storedDevices parse w with
    | Onboarding.SyntaxError _ => Onboarding.LoadingView
    | _ => if bool_decide (storage w !! "hasOnboarded" = Some "true"%string)
           then Onboarding.DeviceListView else Onboarding.SettingsView
    end.
Proof.
  unfold viewAfterLoad. rewrite loadOnboarded_run. cbn [fst].
  destruct (storedDevices parse w); [done | |]; by destruct (bool_decide _).
Qed.

(** What each use does to the store. *)
Lemma perform_storage w u :
  storage (perform w u)
  = match u with
    | Ping _ _ => storage w
    | Simulate _ keybind delay =>
        <["siriDelay" := delay]> (<["siriKeybind" := keybind]> (storage w))
    | Save keybind delay =>
        match firstError keybind delay with
        | None => <["siriDelay" := delay]> (<["siriKeybind" := keybind]> (storage w))
        | Some _ => storage w
        end
    | Complete keybind delay =>
        match firstError keybind delay with
        | None => <["hasOnboarded" := "true"%string]>
                    (<["siriDelay" := delay]> (<["siriKeybind" := keybind]> (storage w)))
        | Some _ => storage w
        end
    end.
Proof.
  destruct u as [bridge deviceName | bridge keybind delay | keybind delay | keybind delay].
  - unfold perform. by rewrite pingDevice_run.
  - apply handleSimulate_storage.
  - destruct (firstError keybind delay) as [m |] eqn:He.
    + unfold perform. by rewrite (handleSubmit_refused _ _ _ _ _ He).
    + by rewrite perform_Save.
  - destruct (firstError keybind delay) as [m |] eqn:He.
    + unfold perform. by rewrite (handleSubmit_refused _ _ _ _ _ He).
    + by rewrite perform_Complete.
Qed.

Lemma perform_ordinary_flag w u :
  ordinary u -> storage (perform w u) !! "hasOnboarded" = storage w !! "hasOnboarded".
Proof.
  intros Hu. rewrite perform_storage.
  destruct u as [? ? | ? keybind delay | keybind delay | ? ?]; [done | | | done].
  - by rewrite !lookup_insert_ne.
  - destruct (firstError keybind delay); [done |]. by rewrite !lookup_insert_ne.
Qed.

Lemma perform_keeps_flag w u :
  storage w !! "hasOnboarded" = Some "true"%string ->
  storage (perform w u) !! "hasOnboarded" = Some "true"%string.
Proof.
  intros Hw. destruct u as [? ? | ? ? ? | ? ? | keybind delay];
    try (by rewrite perform_ordinary_flag).
  rewrite perform_storage. destruct (firstError keybind delay); [done |].
  apply lookup_insert_eq.
Qed.

Lemma performAll_keeps_flag uses w :
  storage w !! "hasOnboarded" = Some "true"%string ->
  storage (performAll w uses) !! "hasOnboarded" = Some "true"%string.
Proof.
  revert w. induction uses as [|u uses IH]; intros w Hw; [done |].
  apply IH. by apply perform_keeps_flag.
Qed.

Lemma perform_devices w u :
  storage (perform w u) !! "devices" = storage w !! "devices".
Proof.
  rewrite perform_storage.
  destruct u as [? ? | ? keybind delay | keybind delay | keybind delay]; [done | | |].
  - by rewrite !lookup_insert_ne.
  - destruct (firstError keybind delay); [done |]. by rewrite !lookup_insert_ne.
  - destruct (firstError keybind delay); [done |]. by rewrite !lookup_insert_ne.
Qed.

Lemma performAll_devices uses w :
  storage (performAll w uses) !! "devices" = storage w !! "devices".
Proof.
  revert w. induction uses as [|u uses IH]; intros w; [done |].
  unfold performAll in *. cbn [fold_left]. by rewrite IH, perform_devices.
Qed.

(** X12. The first-run gate. A stored list of devices that [JSON.parse]
    refuses leaves the command on its loading view. Otherwise, as long as
    the store does not hold the text true under hasOnboarded, the command
    opens on the settings form; pings, runs of the keybind, submissions of
    the settings screen and refused submissions of the first run change
    neither the flag nor the stored devices. An accepted submission of the
    first run stores the flag, and from then on, whatever of these is
    done, a store whose devices parse to a list opens on the device
    list. *)
Theorem onboarding_gate (parse : string -> Onboarding.parsed) :
  (forall w : world,
      (forall message : string, storedDevices parse w <> Onboarding.SyntaxError message) ->
      storage w !! "hasOnboarded" <> Some "true"%string ->
      viewAfterLoad parse w = Onboarding.SettingsView)
  /\ (forall (w : world) (message : string),
         storedDevices parse w = Onboarding.SyntaxError message ->
         fst (Onboarding.loadOnboarded parse w) = Threw (ErrorObject message)
         /\ viewAfterLoad parse w = Onboarding.LoadingView)
  /\ (forall (w : world) (u : use),
         storedDevices parse (perform w u) = storedDevices parse w
         /\ (ordinary u ->
             storage (perform w u) !! "hasOnboarded" = storage w !! "hasOnboarded"))
  /\ (forall (w : world) (keybind delay : string),
         is_Some (firstError keybind delay) ->
         storage (perform w (Complete keybind delay)) = storage w)
  /\ (forall (w : world) (keybind delay : string) (uses : list use)
             (devices : list DeviceStore.Device),
         storedDevices parse w = Onboarding.Devices devices ->
         firstError keybind delay = None ->
         fst (Onboarding.loadOnboarded parse
                (performAll (perform w (Complete keybind delay)) uses))
         = Returned (Some devices, true)
         /\ viewAfterLoad parse (performAll (perform w (Complete keybind delay)) uses)
            = Onboarding.DeviceListView)
  /\ (forall w : world,
         storage (snd (Onboarding.loadOnboarded parse w)) = storage w).
Proof.
  split; [| split; [| split; [| split; [| split]]]].
  - intros w Hparse Hw. rewrite viewAfterLoad_flag.
    rewrite bool_decide_eq_false_2 by done.
    destruct (storedDevices parse w) as [message | |] eqn:E; [| done | done].
    by destruct (Hparse message).
  - intros w message E. rewrite viewAfterLoad_flag, loadOnboarded_run, E. done.
  - intros w u. split; [| apply perform_ordinary_flag].
    unfold storedDevices. by rewrite perform_devices.
  - intros w keybind delay [m Hm]. by rewrite perform_storage, Hm.
  - intros w keybind delay uses devices Hdevices Hok.
    assert (storedDevices parse (performAll (perform w (Complete keybind delay)) uses)
            = Onboarding.Devices devices) as E.
    { unfold storedDevices in *. by rewrite performAll_devices, perform_devices. }
    assert (storage (performAll (perform w (Complete keybind delay)) uses) !! "hasOnboarded"
            = Some "true"%string) as Hflag.
    { apply performAll_keeps_flag. rewrite perform_storage, Hok. apply lookup_insert_eq. }
    rewrite viewAfterLoad_flag, loadOnboarded_run, E. cbn [fst].
    by rewrite bool_decide_eq_true_2.
  - intros w. by rewrite loadOnboarded_run.
Qed.

Lemma onboarding_gate_witness :
  let parse := fun text : string =>
                 if String.eqb text "[]" then Onboarding.Devices []
                 else Onboarding.SyntaxError "Unexpected end of JSON input" in
  let uses := [ Ping (fun _ => None) "iPhone"; Simulate (fun _ => Some OtherValue) "f1" "abc";
                Save "cmd+a" "2" ] in
  let broken := {| storage := {["devices" := "{"%string]}; events := [] |} in
  viewAfterLoad parse initial = Onboarding.SettingsView
  /\ storedDevices parse broken = Onboarding.SyntaxError "Unexpected end of JSON input"
  /\ viewAfterLoad parse broken = Onboarding.LoadingView
  /\ firstError "cmd+f13" "1" = None
  /\ viewAfterLoad parse (performAll (perform initial (Complete "cmd+f13" "1")) uses)
     = Onboarding.DeviceListView.
Proof.
  intros parse uses broken.
  assert (forall message, storedDevices parse initial <> Onboarding.SyntaxError message) as Hparse
    by (intros message; discriminate).
  assert (storage initial !! "hasOnboarded" <> Some "true"%string) as H0 by done.
  assert (storedDevices parse broken
          = Onboarding.SyntaxError "Unexpected end of JSON input") as Hbroken by reflexivity.
  assert (firstError "cmd+f13" "1" = None) as H by reflexivity.
  pose proof (onboarding_gate parse) as (G1 & G2 & _ & _ & G5 & _).
  exact (conj (G1 initial Hparse H0)
          (conj Hbroken
             (conj (proj2 (G2 broken _ Hbroken))
                (conj H (proj2 (G5 initial "cmd+f13" "1" uses [] eq_refl H)))))).
Defined.

End FlowFacts.

(** ** The device list and its form *)

Module ListFacts.
Import JsString KeybindCodec DeviceStore.
Import Vocabulary Reading JsStringFacts ValidationFacts CodecFacts DeviceFacts.
Local Open Scope list_scope.

Lemma removeDevice_elem id' devices d :
  d ∈ removeDevice id' devices <-> d ∈ devices /\ id d <> id'.
Proof. unfold removeDevice. rewrite list_elem_of_filter. tauto. Qed.

Lemma removeDevice_absent id' devices :
  (forall d, d ∈ devices -> id d <> id') -> removeDevice id' devices = devices.
Proof.
  intros Habsent. unfold removeDevice.
  induction devices as [|d devices IH]; [done |].
  rewrite filter_cons_True by (apply Habsent; left).
  f_equal. apply IH. intros d' Hd'. apply Habsent. by right.
Qed.

Lemma removeDevice_shrinks id' devices d :
  d ∈ devices -> id d = id' -> length (removeDevice id' devices) < length devices.
Proof.
  unfold removeDevice. intros Hd Hid.
  induction devices as [|d' devices IH]; [by apply elem_of_nil in Hd |].
  pose proof (length_filter (fun d => id d <> id') devices) as Hle.
  apply elem_of_cons in Hd as [<- | Hd].
  - rewrite filter_cons_False by tauto. simpl. lia.
  - specialize (IH Hd). destruct (decide (id d' <> id')).
    + rewrite filter_cons_True by done. simpl. lia.
    + rewrite filter_cons_False by done. simpl. lia.
Qed.

(** X13. [removeDevice] takes out every device with the given id, however
    many there are, and keeps the others in their order; it changes nothing
    when no device has the id, and a second removal changes nothing. *)
Theorem removeDevice_spec (id' : string) (devices : list Device) :
  (forall d : Device, d ∈ removeDevice id' devices <-> d ∈ devices /\ id d <> id')
  /\ removeDevice id' devices `sublist_of` devices
  /\ ((forall d : Device, d ∈ devices -> id d <> id') ->
      removeDevice id' devices = devices)
  /\ removeDevice id' (removeDevice id' devices) = removeDevice id' devices
  /\ (forall d : Device,
         d ∈ devices -> id d = id' ->
         length (removeDevice id' devices) < length devices).
Proof.
  split; [apply removeDevice_elem |].
  split; [apply sublist_filter |].
  split; [apply removeDevice_absent |].
  split.
  - apply removeDevice_absent. by intros d [_ ?]%removeDevice_elem.
  - apply removeDevice_shrinks.
Qed.

(** X14. Adding a device and then removing it by its id gives the list
    back, in its order, when no device had that id before; when one had,
    it is removed as well and the list comes out shorter than it was. *)
Theorem add_then_remove (now : Z) (name' icon' : string) (devices : list Device) :
  ((forall d : Device, d ∈ devices -> id d <> pretty now) ->
   removeDevice (pretty now) (addDevice now name' icon' devices) = devices)
  /\ (forall d : Device,
         d ∈ devices -> id d = pretty now ->
         length (removeDevice (pretty now) (addDevice now name' icon' devices))
         < length devices).
Proof.
  unfold addDevice, removeDevice. split.
  - intros Hfresh. rewrite filter_app.
    rewrite filter_cons_False by (simpl; tauto).
    rewrite filter_nil, app_nil_r. by apply removeDevice_absent.
  - intros d Hd Hid. rewrite filter_app.
    rewrite filter_cons_False by (simpl; tauto).
    rewrite filter_nil, app_nil_r.
    by apply (removeDevice_shrinks (pretty now) devices d).
Qed.

(** *** The add-device form *)

Lemma form_refines_store actions devices :
  fold_left AddDeviceForm.step actions devices
  = fold_left DeviceStore.step (omap storeAction actions) devices.
Proof.
  revert devices. induction actions as [|a actions IH]; intros devices; [done |].
  cbn [fold_left omap list_omap]. rewrite IH.
  destruct a as [now name' icon' | id']; [| done].
  cbn [storeAction AddDeviceForm.step]. unfold AddDeviceForm.onSubmit.
  by destruct (validateDeviceName name').
Qed.

Lemma added_valid actions d :
  d ∈ added (omap storeAction actions) -> validateDeviceName (name d) = None.
Proof.
  unfold added. intros (a & Ha & Hd)%list_elem_of_omap.
  apply list_elem_of_omap in Ha as (a' & _ & Ha').
  destruct a' as [now name' icon' | id']; simpl in Ha'.
  - destruct (validateDeviceName name') eqn:Hv; [done |].
    injection Ha' as <-. by injection Hd as <-.
  - injection Ha' as <-. done.
Qed.

Lemma valid_name_length name' :
  validateDeviceName name' = None -> 1 <= String.length name' <= 50.
Proof.
  intros (Htrim & Hlen & _)%validateDeviceName_None.
  split; [| done]. destruct name'; [by vm_compute in Htrim | simpl; lia].
Qed.

(** X15. The add-device form changes the list only through accepted
    names: a refused submission leaves the list as it is and gives the
    validator's message, an accepted one appends the device. So every
    device of a list built on the list screen has a name the validator
    accepts, of one to fifty characters, that needs no escaping in the
    ping script; and the devices stand in the order of their insertion. *)
Theorem form_keeps_names_valid (actions : list AddDeviceForm.action) :
  (forall (now : Z) (name' icon' message : string) (devices : list Device),
      validateDeviceName name' = Some message ->
      AddDeviceForm.onSubmit now name' icon' devices = AddDeviceForm.Refused message
      /\ AddDeviceForm.step devices (AddDeviceForm.Submit now name' icon') = devices)
  /\ (forall (now : Z) (name' icon' : string) (devices : list Device),
         validateDeviceName name' = None ->
         AddDeviceForm.step devices (AddDeviceForm.Submit now name' icon')
         = devices ++ [{| id := pretty now; name := name'; icon := icon' |}])
  /\ AddDeviceForm.run actions = DeviceStore.run (omap storeAction actions)
  /\ Forall (fun d => validateDeviceName (name d) = None
                      /\ sanitizeForAppleScript (name d) = name d
                      /\ 1 <= String.length (name d) <= 50)
            (AddDeviceForm.run actions)
  /\ AddDeviceForm.run actions `sublist_of` added (omap storeAction actions).
Proof.
  assert (AddDeviceForm.run actions = DeviceStore.run (omap storeAction actions)) as Hrun
    by apply form_refines_store.
  split; [| split; [| split; [done | split]]].
  - intros now name' icon' message devices Hv.
    unfold AddDeviceForm.step, AddDeviceForm.onSubmit. by rewrite Hv.
  - intros now name' icon' devices Hv.
    unfold AddDeviceForm.step, AddDeviceForm.onSubmit. by rewrite Hv.
  - rewrite Hrun. apply Forall_forall. intros d Hd.
    apply (sublist_subseteq _ _ (run_insertion_order _)), added_valid in Hd.
    split; [done |]. split; [by apply sanitize_valid_name | by apply valid_name_length].
  - rewrite Hrun. apply run_insertion_order.
Qed.

Lemma form_keeps_names_valid_witness :
  validateDeviceName "my;phone" = Some "Invalid characters"%string
  /\ AddDeviceForm.step [] (AddDeviceForm.Submit 1700000000000%Z "my;phone" "Iphone.png") = [].
Proof.
  assert (validateDeviceName "my;phone" = Some "Invalid characters"%string) as H
    by reflexivity.
  exact (conj H
    (proj2 (proj1 (form_keeps_names_valid []) 1700000000000%Z
              "my;phone"%string "Iphone.png"%string _ [] H))).
Defined.

End ListFacts.

(** ** Keys, key codes and delays in the script *)

Module ScriptFacts.
Import JsString JsObject JsNumber KeybindCodec Host KeystrokeSimulator.
Import Vocabulary Reading JsStringFacts NumberFacts ValidationFacts KeybindFacts.
Import SimulatorFacts CodecFacts.

(** *** Key codes *)

Lemma keycodeMap_keys k :
  k ∈ supportedKeys <-> is_Some (assoc k keycodeMap).
Proof.
  split.
  - intros H. unfold supportedKeys in H. elem_cases H; by eexists.
  - unfold keycodeMap, supportedKeys. cbn [assoc].
    lookup_cases; intros [n Hn]; try discriminate Hn;
      repeat constructor.
Qed.

(** X16. The validator and the simulator agree on the function keys: a key
    is in the validator's list exactly when the key-code table has an entry
    for it, and a key that is one of f13..f20 up to case is never refused
    and is sent as key code 105, 107, 113, 106, 64, 79, 80 or 90. *)
Theorem function_keys_have_codes :
  (forall k : string, k ∈ supportedKeys <-> is_Some (assoc k keycodeMap))
  /\ (forall (k text key : string) (modifiers : list string),
         (k, text) ∈ keyCodeTexts ->
         toLowerCase key = k ->
         unsupported key = false
         /\ keyCommand key modifiers = "key code " ++ text ++ modifierString modifiers)
  /\ map fst keyCodeTexts = supportedKeys.
Proof.
  split; [exact keycodeMap_keys |]. split; [| reflexivity].
  intros k text key modifiers Hin Hkey.
  unfold unsupported, keyCommand, keycode.
  unfold keyCodeTexts in Hin.
  elem_cases Hin; injection Hin as Hk Ht; rewrite Hk, Ht;
    split; reflexivity.
Qed.

Lemma function_keys_have_codes_witness :
  ("f17"%string, "64"%string) ∈ keyCodeTexts
  /\ toLowerCase "F17" = "f17"
  /\ unsupported "F17" = false
  /\ keyCommand "F17" ["shift down"] = "key code 64 using {shift down}".
Proof.
  assert (("f17"%string, "64"%string) ∈ keyCodeTexts) as H
    by (unfold keyCodeTexts; set_solver).
  exact (conj H (conj eq_refl
    (proj1 (proj2 function_keys_have_codes) "f17" "64" "F17" ["shift down"] H eq_refl))).
Defined.

(** *** The key of a keystroke *)

Lemma keycodeMap_entry k n : (k, n) ∈ keycodeMap -> k ∈ supportedKeys.
Proof.
  intros H. unfold keycodeMap in H.
  elem_cases H; injection H as -> _; repeat constructor.
Qed.

Lemma readLiteral_char c :
  readLiteral (str c) = Some (str c) <-> c <> dquote /\ c <> backslash.
Proof.
  unfold str. cbn [readLiteral].
  destruct (Ascii.eqb_spec c backslash) as [-> | Hb].
  - split; [discriminate | by intros [_ ?]].
  - destruct (Ascii.eqb_spec c dquote) as [-> | Hq].
    + split; [discriminate | by intros [? _]].
    + split; [done | reflexivity].
Qed.

(** X17. The key of an accepted keybind that is no function key and not
    the letter f is one character, and the script types it between double
    quotes as it stands, without the escaping a device name gets: the
    quoted text reads back as the key exactly when the key is neither a
    double quote nor a backslash. *)
Theorem keystroke_key_not_escaped (s : string) :
  validateKeybind s = None ->
  toLowerCase (key (parseHotkey s)) ∉ supportedKeys ->
  toLowerCase (key (parseHotkey s)) <> "f" ->
  exists c : ascii,
    key (parseHotkey s) = str c
    /\ unsupported (key (parseHotkey s)) = false
    /\ keyCommand (key (parseHotkey s)) (modifiers (parseHotkey s))
       = "keystroke " ++ str dquote ++ str c ++ str dquote
         ++ modifierString (modifiers (parseHotkey s))
    /\ (readLiteral (str c) = Some (str c) <-> c <> dquote /\ c <> backslash)
    /\ readLiteral (sanitizeForAppleScript (str c)) = Some (str c).
Proof.
  intros Hok Hout Hf.
  destruct (validated_resolution s Hok) as [[Hf' _] | [Hsup [(n & Hn & _) | [Hlen Hcmd]]]].
  - done.
  - exfalso. apply Hout. by apply (keycodeMap_entry _ n).
  - destruct (key (parseHotkey s)) as [|c [|]] eqn:Ek; try discriminate Hlen.
    exists c. split; [done |]. split; [done |]. split; [done |].
    split; [apply readLiteral_char |].
    apply replaceClass_read. 
Qed.

Lemma keystroke_key_not_escaped_witness :
  validateKeybind "cmd+a" = None
  /\ exists c : ascii,
       key (parseHotkey "cmd+a") = str c
       /\ unsupported (key (parseHotkey "cmd+a")) = false
       /\ keyCommand (key (parseHotkey "cmd+a")) (modifiers (parseHotkey "cmd+a"))
          = "keystroke " ++ str dquote ++ str c ++ str dquote
            ++ modifierString (modifiers (parseHotkey "cmd+a"))
       /\ (readLiteral (str c) = Some (str c) <-> c <> dquote /\ c <> backslash)
       /\ readLiteral (sanitizeForAppleScript (str c)) = Some (str c).
Proof.
  split; [reflexivity |].
  apply (keystroke_key_not_escaped "cmd+a"); [reflexivity | | discriminate].
  apply (bool_decide_unpack (toLowerCase (key (parseHotkey "cmd+a")) ∉ supportedKeys)).
  reflexivity.
Defined.

(** *** The number at the front of a delay *)

Lemma digit_not_space c : is_digit c = true -> is_space c = false.
Proof.
  unfold is_digit, is_space. intros H.
  apply andb_true_iff in H as [H1 H2].
  apply N.leb_le in H1. apply N.leb_le in H2.
  repeat (apply orb_false_iff; split).
  - apply andb_false_iff. right. apply N.leb_gt. lia.
  - apply N.eqb_neq. lia.
  - apply N.eqb_neq. lia.
Qed.

Lemma trimStart_white ws s :
  whitespace_only ws -> trimStart (ws ++ s) = trimStart s.
Proof.
  unfold whitespace_only, chars.
  induction ws as [|c ws IH]; [done |].
  cbn [list_ascii_of_string]. intros H. apply Forall_cons in H as [Hc H].
  cbn [String.append trimStart]. rewrite Hc. by apply IH.
Qed.

(** Digits followed by text that cannot continue them are read whole, and
    the text is left. *)
Lemma digits_prefix ds tail :
  DecimalDigits ds -> ends_number tail ->
  forall acc n, exists v m,
    digits acc n ds = (v, S m, EmptyString)
    /\ digits acc n (ds ++ tail) = (v, S m, tail).
Proof.
  intros Hds Htail. induction Hds as [c Hc | c s Hc Hs IH]; intros acc n.
  - exists (10 * acc + digit_value c)%Z, n.
    unfold str. cbn [String.append digits]. rewrite Hc. split; [done |].
    destruct tail as [|c' r]; [done |].
    destruct Htail as (Hd & _). cbn [digits]. by rewrite Hd.
  - destruct (IH (10 * acc + digit_value c)%Z (S n)) as (v & m & H1 & H2).
    exists v, m. cbn [String.append digits]. by rewrite Hc.
Qed.

Lemma digits_first ds : DecimalDigits ds -> exists c r, ds = String c r /\ is_digit c = true.
Proof. intros [c Hc | c s Hc _]; by eexists _, _. Qed.

Lemma unsignedDecimal_prefix neg ds tail :
  DecimalDigits ds -> ends_number tail ->
  unsignedDecimal neg (ds ++ tail) = unsignedDecimal neg ds.
Proof.
  intros Hds Htail.
  destruct (digits_first ds Hds) as (c & r & -> & Hc).
  destruct (digits_prefix _ tail Hds Htail 0%Z O) as (v & m & H1 & H2).
  unfold unsignedDecimal. rewrite H1, H2.
  assert (forall rest, startsWith (String c rest) "Infinity" = false) as Hinf.
  { intros rest. cbn [startsWith].
    destruct (ascii_dec "I" c) as [<- |]; [discriminate Hc | done]. }
  cbn [String.append]. rewrite !Hinf.
  destruct tail as [|c' r']; [done |].
  destruct Htail as (_ & Hpoint & He & HE).
  destruct (Ascii.eqb_spec c' ".") as [-> |]; [done |].
  cbn [exponentPart].
  destruct (Ascii.eqb_spec c' "e") as [-> |]; [done |].
  destruct (Ascii.eqb_spec c' "E") as [-> |]; [done |].
  reflexivity.
Qed.

(** X18. A delay is read from its front: white space before the digits is
    skipped and whatever follows them, if it starts with no digit, point
    or exponent letter, is ignored. Such a delay is read, accepted or
    refused as its digits alone are. *)
Theorem validateDelay_reads_front (ws ds tail : string) :
  whitespace_only ws -> DecimalDigits ds -> ends_number tail ->
  parseFloat (ws ++ ds ++ tail) = parseFloat ds
  /\ validateDelay (ws ++ ds ++ tail) = validateDelay ds.
Proof.
  intros Hws Hds Htail.
  assert (parseFloat (ws ++ ds ++ tail) = parseFloat ds) as Hparse.
  { unfold parseFloat. rewrite (trimStart_white ws _ Hws).
    destruct (digits_first ds Hds) as (c & r & Eds & Hc).
    pose proof (unsignedDecimal_prefix false ds tail Hds Htail) as Hu.
    rewrite Eds in Hu |- *. cbn [String.append] in Hu |- *. cbn [trimStart].
    rewrite (digit_not_space c Hc).
    destruct (Ascii.eqb_spec c "+") as [-> |]; [discriminate Hc |].
    destruct (Ascii.eqb_spec c "-") as [-> |]; [discriminate Hc |].
    exact Hu. }
  split; [exact Hparse |]. unfold validateDelay. by rewrite Hparse.
Qed.

Lemma validateDelay_reads_front_witness :
  parseFloat " 5 seconds" = parseFloat "5"
  /\ validateDelay " 5 seconds" = validateDelay "5".
Proof.
  apply (validateDelay_reads_front " " "5" " seconds").
  - unfold whitespace_only, chars. cbn [list_ascii_of_string].
    repeat constructor.
  - apply digits_one. reflexivity.
  - cbn [ends_number]. repeat split; discriminate.
Defined.

(** *** The settings form without a callback *)

(** With a callback that does nothing, the form's [handleSubmit] is the
    one of the simulator's model. *)
Lemma handleSubmit_no_callback keybind delay w :
  Onboarding.handleSubmit (ret tt) keybind delay w = handleSubmit keybind delay w.
Proof.
  unfold Onboarding.handleSubmit, handleSubmit.
  by destruct (validateKeybind keybind), (validateDelay delay).
Qed.

End ScriptFacts.

(** ** The settings form, opened and left as it is *)

Module SettingsFacts.
Import JsString JsNumber KeybindCodec Host KeystrokeSimulator.
Import Vocabulary Reading HostFacts FlowFacts.

Lemma orDefault_again o d :
  truthy d = true ->
  truthy (orDefault o d) = true /\ orDefault (Some (orDefault o d)) d = orDefault o d.
Proof.
  intros Hd. destruct o as [s |]; simpl.
  - destruct (truthy s) eqn:Hs; simpl; by rewrite ?Hs, ?Hd.
  - by rewrite Hd.
Qed.

Lemma loadSettings_run w :
  Onboarding.loadSettings w
  = (Returned (storedKeybind w, orDefault (storage w !! "siriDelay") "1"),
     after w [GetItem "siriKeybind"; GetItem "siriDelay"]).
Proof.
  unfold Onboarding.loadSettings, mbind, task_bind, mret, task_ret, bind, ret, getItem,
    storedKeybind, after.
  simpl. by rewrite <- (assoc_L (++)%list).
Qed.

(** The settings a ping would use are the same once the fields the form
    loaded have been stored again. *)
Lemma stored_fields_again (st st' : gmap string string) :
  st' = <["siriDelay" := orDefault (st !! "siriDelay") "1"]>
          (<["siriKeybind" := orDefault (st !! "siriKeybind") "cmd+f13"]> st)
  \/ st' = <["hasOnboarded" := "true"]>
             (<["siriDelay" := orDefault (st !! "siriDelay") "1"]>
                (<["siriKeybind" := orDefault (st !! "siriKeybind") "cmd+f13"]> st))
  \/ st' = st ->
  orDefault (st' !! "siriKeybind") "cmd+f13" = orDefault (st !! "siriKeybind") "cmd+f13"
  /\ orDefault (st' !! "siriDelay") "1" = orDefault (st !! "siriDelay") "1".
Proof.
  intros [-> | [-> | ->]]; [| | done].
  - rewrite lookup_stored_keybind, lookup_stored_delay.
    split; by apply orDefault_again.
  - rewrite !(lookup_insert_ne _ "hasOnboarded") by done.
    rewrite lookup_stored_keybind, lookup_stored_delay.
    split; by apply orDefault_again.
Qed.

(** X19. The settings form opens on the keybind and the delay a ping would
    use, the defaults cmd+f13 and 1 when nothing or an empty text is
    stored, and neither field is empty. Running the keybind or submitting
    the form without editing the fields, on the settings screen or at the
    end of the first run, accepted or not, leaves the keybind and the delay
    of later pings as they were. *)
Theorem loaded_settings_round_trip (w : world) :
  Onboarding.loadSettings w
  = (Returned (storedKeybind w, orDefault (storage w !! "siriDelay") "1"),
     after w [GetItem "siriKeybind"; GetItem "siriDelay"])
  /\ parseFloat (orDefault (storage w !! "siriDelay") "1") = storedDelay w
  /\ truthy (storedKeybind w) = true
  /\ truthy (orDefault (storage w !! "siriDelay") "1") = true
  /\ (forall bridge : string -> option thrown,
         Forall (fun u : use =>
                   storedKeybind (perform (snd (Onboarding.loadSettings w)) u)
                   = storedKeybind w
                   /\ storedDelay (perform (snd (Onboarding.loadSettings w)) u)
                      = storedDelay w)
                [ Simulate bridge (storedKeybind w) (orDefault (storage w !! "siriDelay") "1");
                  Save (storedKeybind w) (orDefault (storage w !! "siriDelay") "1");
                  Complete (storedKeybind w) (orDefault (storage w !! "siriDelay") "1") ]).
Proof.
  split; [apply loadSettings_run |]. split; [reflexivity |].
  split; [by apply orDefault_again |]. split; [by apply orDefault_again |].
  intros bridge.
  assert (forall u,
             u ∈ [ Simulate bridge (storedKeybind w) (orDefault (storage w !! "siriDelay") "1");
                   Save (storedKeybind w) (orDefault (storage w !! "siriDelay") "1");
                   Complete (storedKeybind w) (orDefault (storage w !! "siriDelay") "1") ] ->
             storedKeybind (perform (snd (Onboarding.loadSettings w)) u) = storedKeybind w
             /\ storedDelay (perform (snd (Onboarding.loadSettings w)) u) = storedDelay w) as H.
  { intros u Hu. rewrite loadSettings_run. cbn [snd].
    unfold storedKeybind, storedDelay in Hu |- *.
    enough (orDefault (storage (perform (after w [GetItem "siriKeybind"; GetItem "siriDelay"]) u)
                         !! "siriKeybind") "cmd+f13"
            = orDefault (storage w !! "siriKeybind") "cmd+f13"
            /\ orDefault (storage (perform (after w [GetItem "siriKeybind"; GetItem "siriDelay"]) u)
                            !! "siriDelay") "1"
               = orDefault (storage w !! "siriDelay") "1") as [-> ->] by done.
    apply stored_fields_again. rewrite perform_storage, storage_after.
    elem_cases Hu.
    - by left.
    - destruct (firstError _ _); [by right; right | by left].
    - destruct (firstError _ _); [by right; right | by right; left]. }
  apply Forall_forall. exact H.
Qed.

End SettingsFacts.
